(** * apt2ostree: a shallow embedding of [apt2ostree/apt.py]

    The Python module is a generator of ninja build statements.  Its pure
    parts (the lockfile parser, the derivation of pool paths and branch
    names) are embedded as functions, the methods of [class Apt] as
    computations in a state-and-exception monad over the ninja file being
    written, and the shell bodies of the rules the claims speak about
    ([download_deb], [make_dpkg_info], [update_lockfile]) as functions on an
    explicit file system.

    Python 2 [str] values are byte strings: they are [string] here, one
    [ascii] per byte. *)

From Stdlib Require Import ZArith Ascii.
From stdpp Require Import base option list strings gmap fin_maps sorting.

Local Open Scope string_scope.
Local Open Scope list_scope.

(** ** Python string operations used by the module *)

Module Py.

(** The line feed, which a Rocq string literal cannot spell. *)
Definition nl : string := String "010"%char "".

(** [str.strip()] removes the bytes for which C's [isspace] holds:
    space, [\t], [\n], [\v], [\f], [\r]. *)
Definition is_space (c : ascii) : bool :=
  match c with
  | "009" | "010" | "011" | "012" | "013" | " " => true
  | _ => false
  end%char.

Fixpoint lstrip (s : string) : string :=
  match s with
  | "" => ""
  | String c s' => if is_space c then lstrip s' else s
  end.

Fixpoint rstrip (s : string) : string :=
  match s with
  | "" => ""
  | String c s' =>
      match rstrip s' with
      | "" => if is_space c then "" else String c ""
      | r => String c r
      end
  end.

Definition strip (s : string) : string := rstrip (lstrip s).

(** [s.startswith(p)] *)
Fixpoint startswith (p s : string) : bool :=
  match p, s with
  | "", _ => true
  | String _ _, "" => false
  | String a p', String b s' => Ascii.eqb a b && startswith p' s'
  end.

#[global] Arguments startswith : simpl nomatch.

(** [s[n:]] and [s[:n]] for [n >= 0]; slices never raise, they truncate. *)
Fixpoint drop (n : nat) (s : string) : string :=
  match n, s with
  | O, _ => s
  | S _, "" => ""
  | S n', String _ s' => drop n' s'
  end.

Fixpoint take (n : nat) (s : string) : string :=
  match n, s with
  | O, _ => ""
  | S _, "" => ""
  | S n', String c s' => String c (take n' s')
  end.

(** [s[i:j]] for [0 <= i <= j]. *)
Definition slice (i j : nat) (s : string) : string := take (j - i) (drop i s).

(** [s.split(sep, 1)] for a non-empty [sep]: [Some (a, b)] when [sep] occurs,
    split at its first occurrence ([[a, b]] in Python), [None] when it does
    not occur (Python returns the one-element list [[s]]). *)
Fixpoint split_once (sep s : string) : option (string * string) :=
  if startswith sep s then Some ("", drop (String.length sep) s)
  else match s with
       | "" => None
       | String c s' =>
           match split_once sep s' with
           | Some (a, b) => Some (String c a, b)
           | None => None
           end
       end.

(** [s.replace(old, new)] for one-byte [old] and [new]. *)
Fixpoint replace_char (old new : ascii) (s : string) : string :=
  match s with
  | "" => ""
  | String c s' =>
      String (if Ascii.eqb c old then new else c) (replace_char old new s')
  end.

(** [s.replace(old, new)] for a non-empty [old]: occurrences are found left
    to right and do not overlap.  [skip] counts the bytes of a match that
    are still to be passed over. *)
Fixpoint replace_go (old new : string) (skip : nat) (s : string) : string :=
  match s with
  | "" => ""
  | String c s' =>
      match skip with
      | S k => replace_go old new k s'
      | O =>
          if startswith old s
          then new +:+ replace_go old new (String.length old - 1) s'
          else String c (replace_go old new 0 s')
      end
  end.

Definition replace (old new s : string) : string := replace_go old new 0 s.

(** [sep.join(l)] *)
Fixpoint join (sep : string) (l : list string) : string :=
  match l with
  | [] => ""
  | [x] => x
  | x :: l' => x +:+ sep +:+ join sep l'
  end.

(** [c in s] for a byte [c] *)
Fixpoint occurs (c : ascii) (s : string) : bool :=
  match s with
  | "" => false
  | String a s' => Ascii.eqb a c || occurs c s'
  end.

(** [posixpath.basename(p)]: [p[p.rfind('/') + 1:]], what follows the last
    slash, and all of [p] when it has none. *)
Fixpoint basename (p : string) : string :=
  match p with
  | "" => ""
  | String c p' =>
      if occurs "/" p' then basename p'
      else if Ascii.eqb c "/"%char then p' else p
  end.

(** The value of a hexadecimal digit, as [int(c, 16)] reads it. *)
Definition hex_digit (c : ascii) : option N :=
  let n := N_of_ascii c in
  if ((48 <=? n) && (n <=? 57))%N then Some (n - 48)%N
  else if ((65 <=? n) && (n <=? 70))%N then Some (n - 55)%N
  else if ((97 <=? n) && (n <=? 102))%N then Some (n - 87)%N
  else None.

(** [urllib.unquote(s)] of Python 2: every [%] followed by two hexadecimal
    digits becomes the byte they spell; any other [%] stays. *)
Fixpoint unquote_go (skip : nat) (s : string) : string :=
  match s with
  | "" => ""
  | String c s' =>
      match skip with
      | S k => unquote_go k s'
      | O =>
          match c, s' with
          | "%"%char, String a (String b _) =>
              match hex_digit a, hex_digit b with
              | Some x, Some y =>
                  String (ascii_of_N (16 * x + y)) (unquote_go 2 s')
              | _, _ => String c (unquote_go 0 s')
              end
          | _, _ => String c (unquote_go 0 s')
          end
      end
  end.

Definition unquote (s : string) : string := unquote_go 0 s.

(** Iterating over a file object: the text cut after every line feed, each
    line keeping its terminator; a last line without one is yielded too. *)
Fixpoint file_lines_go (cur : string) (s : string) : list string :=
  match s with
  | "" => if String.eqb cur "" then [] else [String.rev cur]
  | String c s' =>
      if Ascii.eqb c "010"%char
      then String.rev (String c cur) :: file_lines_go "" s'
      else file_lines_go (String c cur) s'
  end.

Definition file_lines (text : string) : list string := file_lines_go "" text.

End Py.

Import Py.

(** ** Exceptions *)

(** The Python exceptions the module can raise or let through.  A
    [KeyError] carries the missing key, which is [None] when the parser
    indexes its record with the label it has not read yet. *)
Inductive exn : Type :=
  | KeyError (key : option string)
  | ValueError
  | IndexError
  | IOError (errno : Z).

#[global] Instance exn_eq_dec : EqDecision exn.
Proof. solve_decision. Defined.

(** [errno.ENOENT] *)
Definition ENOENT : Z := 2.

(** ** [parse_packages] *)

(** A paragraph of a Packages file: the [dict] from labels to values. *)
Abbreviation pkg_dict := (gmap string string).

(** [pkg[label] += s]: reading [pkg[label]] raises [KeyError] when the key
    is absent, and [label] is [None] until a field line was read. *)
Definition append_field (pkg : pkg_dict) (label : option string) (s : string)
  : exn + pkg_dict :=
  match label with
  | None => inl (KeyError None)
  | Some l =>
      match pkg !! l with
      | None => inl (KeyError (Some l))
      | Some v => inr (<[l := v +:+ s]> pkg)
      end
  end.

(** What the consumer of the generator sees: the records yielded, in order,
    and the exception that ended the iteration, if one did. *)
Definition parsed : Type := list pkg_dict * option exn.

Definition yield (p : pkg_dict) (r : parsed) : parsed := (p :: r.1, r.2).

(** The body of the [for line in stream] loop, with the loop's two
    variables [pkg] and [label] as arguments. *)
Fixpoint parse_loop (stream : list string) (pkg : pkg_dict)
    (label : option string) : parsed :=
  match stream with
  | [] => ([], None)
  | line :: rest =>
      if String.eqb (strip line) "" then
        let r := parse_loop rest ∅ None in
        if decide (pkg = ∅) then r else yield pkg r
      else if String.eqb line " ." then
        match append_field pkg label (nl +:+ nl) with
        | inl e => ([], Some e)
        | inr pkg' => parse_loop rest pkg' label
        end
      else if startswith " " line then
        match append_field pkg label (nl +:+ strip (drop 1 line)) with
        | inl e => ([], Some e)
        | inr pkg' => parse_loop rest pkg' label
        end
      else
        match split_once ": " line with
        | None => ([], Some ValueError)
        | Some (l, data) => parse_loop rest (<[l := strip data]> pkg) (Some l)
        end
  end.

Definition parse_packages (stream : list string) : parsed :=
  parse_loop stream ∅ None.

(** [parse_packages] applied to an open file with the given text. *)
Definition parse_packages_file (text : string) : parsed :=
  parse_packages (file_lines text).

(** ** The generator's state and its monad *)

(** One [build] statement of the ninja file. *)
Record build : Type := Build {
  b_outputs : list string;
  b_rule : string;
  b_inputs : list string;
  b_implicit : list string;
  b_order_only : list string;
  b_variables : gmap string string
}.

#[global] Instance build_eq_dec : EqDecision build.
Proof. solve_decision. Defined.

(** What [open] finds at a path: a file, or an error other than absence. *)
Inductive node : Type :=
  | File (content : string)
  | Unreadable (errno : Z).

(** An [Apt] object with the ninja file it writes to: the build statements
    emitted so far, the files reachable through [ninja.open], and the
    object's two attributes. *)
Record apt : Type := Apt {
  builds : list build;
  files : gmap string node;
  update_lockfile_rules : gset string;
  deb_pool_mirrors : list string
}.

(** Computations that read and change the [Apt] object and may raise.  The
    state reached when an exception is raised is kept: Python does not undo
    the statements executed before a [raise]. *)
Definition M (A : Type) : Type := apt → (exn + A) * apt.

#[global] Instance M_ret : MRet M := λ A x st, (inr x, st).

#[global] Instance M_bind : MBind M := λ A B f m st,
  match m st with
  | (inl e, st') => (inl e, st')
  | (inr x, st') => f x st'
  end.

Definition raise {A : Type} (e : exn) : M A := λ st, (inl e, st).

(** [try: body except IOError as e: if e.errno != errno.ENOENT: raise],
    with [dflt] the value of the variables the body assigns when the handler
    swallows the error. *)
Definition except_enoent {A : Type} (body : M A) (dflt : A) : M A := λ st,
  match body st with
  | (inl (IOError errno), st') =>
      if decide (errno ≠ ENOENT) then (inl (IOError errno), st')
      else (inr dflt, st')
  | r => r
  end.

(** [for x in l: body(x)], collecting what each round produces. *)
Fixpoint for_each {A B : Type} (l : list A) (body : A → M B) : M (list B) :=
  match l with
  | [] => mret []
  | x :: l' => y ← body x; ys ← for_each l' body; mret (y :: ys)
  end.

(** Modelled from the spec: [Ninja.build] and [Rule.build] of [ninja.py],
    which is not among the sources.  Registering a task adds it to the build
    graph with its declared outputs, inputs, order-only prerequisites and
    parameters: [ninja.build(outputs, rule, inputs, implicit, order_only,
    variables)] is one more statement at the end of the file, and the
    outputs are returned, as [apt.py] uses them. *)
Definition ninja_build (outputs : list string) (rule : string)
    (inputs implicit order_only : list string)
    (variables : gmap string string) : M (list string) := λ st,
  (inr outputs,
   Apt (builds st ++ [Build outputs rule inputs implicit order_only variables])
       (files st) (update_lockfile_rules st) (deb_pool_mirrors st)).

(** Modelled from the spec: [Ninja.open] of [ninja.py], taken to be
    [open] on the files of the build directory.
    [with ninja.open(path, 'w') as f: f.write(content)] *)
Definition ninja_write (path content : string) : M unit := λ st,
  (inr tt,
   Apt (builds st) (<[path := File content]> (files st))
       (update_lockfile_rules st) (deb_pool_mirrors st)).

(** [ninja.open(path)] followed by the iteration over the file: the lines,
    or the [IOError] of [open]. *)
Definition ninja_open (path : string) : M (list string) := λ st,
  match files st !! path with
  | None => (inl (IOError ENOENT), st)
  | Some (Unreadable errno) => (inl (IOError errno), st)
  | Some (File content) => (inr (file_lines content), st)
  end.

(** [self._update_lockfile_rules.update(out)] *)
Definition add_update_lockfile_rules (out : list string) : M unit := λ st,
  (inr tt,
   Apt (builds st) (files st) (update_lockfile_rules st ∪ list_to_set out)
       (deb_pool_mirrors st)).

(** [self.deb_pool_mirrors] *)
Definition get_deb_pool_mirrors : M (list string) := λ st,
  (inr (deb_pool_mirrors st), st).

(** [pkg[key]] *)
Definition getitem (pkg : pkg_dict) (key : string) : M string :=
  match pkg !! key with
  | Some v => mret v
  | None => raise (KeyError (Some key))
  end.

(** [OstreeRef(filename)], the handle on a branch of the repository. *)
Record OstreeRef : Type := { filename : string; ref : string }.

(** ** Names derived from a package record and from a lockfile *)

(** ["%s/%s/%s_%s" % (sha256[:2], sha256[2:4], sha256[4:],
    os.path.basename(filename))] *)
Definition aptly_pool_filename (sha256 filename : string) : string :=
  take 2 sha256 +:+ "/" +:+ slice 2 4 sha256 +:+ "/" +:+ drop 4 sha256
    +:+ "_" +:+ basename filename.

(** ["deb/pool/" + aptly_pool_filename.replace('+', '_').replace('~', '_')] *)
Definition ref_base (pool : string) : string :=
  "deb/pool/" +:+ replace_char "~" "_" (replace_char "+" "_" pool).

(** [digest = lockfile.replace('/', '_')] *)
Definition image_digest (lockfile : string) : string :=
  replace_char "/" "_" lockfile.

(** [sorted(packages)] on a list of [str]: the order is the bytewise
    lexicographic one. *)
Definition sorted (l : list string) : list string := merge_sort String.le l.

(** ["".join("| " + x for x in packages)] *)
Definition packages_filter (packages : list string) : string :=
  join "" ((λ x, "| " +:+ x) <$> packages).

(** ** The rules and the methods of [class Apt] *)

Section Generator.

(** The values of the ninja variables [$ostree_repo] and [$builddir], which
    the templates of the rules' outputs mention. *)
Variables ostree_repo builddir : string.

(** [$ostree_repo/refs/heads/<branch>] *)
Definition head_of (branch : string) : string :=
  ostree_repo +:+ "/refs/heads/" +:+ branch.

Definition order_only_config : list string := [ostree_repo +:+ "/config"].

(** Modelled from the spec: [OstreeRef] of [ostree.py], which is not among
    the sources.  A ref is published as [<namespace>/<key>/<facet>]; in
    [OstreeRef(filename)] it is what follows [$ostree_repo/refs/heads/] in
    the path of the ref file, which is how [build_image] uses [.ref] as the
    [in_branch] of [dpkg_configure]. *)
Definition ostree_ref (file : string) : OstreeRef :=
  {| filename := file;
     ref := drop (String.length (ostree_repo +:+ "/refs/heads/")) file |}.

(** [update_lockfile.build(ninja, packages=.., architecture=..,
    archive_url=.., distribution=.., lockfile=..)] *)
Definition update_lockfile_build
    (packages architecture archive_url distribution lockfile : string)
  : M (list string) :=
  ninja_build ["update-lockfile-" +:+ lockfile] "update_lockfile"
    [".FORCE"] [] []
    (<["packages" := packages]> (<["architecture" := architecture]>
     (<["archive_url" := archive_url]> (<["distribution" := distribution]>
     (<["lockfile" := lockfile]> ∅))))).

(** [dpkg_base.build(ninja, architecture=..)] *)
Definition dpkg_base_build (architecture : string) : M (list string) :=
  ninja_build [head_of ("deb/dpkg-base/" +:+ architecture)] "dpkg_base"
    [] [] order_only_config (<["architecture" := architecture]> ∅).

(** [data, control = download_deb.build(ninja, sha256sum=.., filename=..,
    aptly_pool_filename=.., ref_base=..)] *)
Definition download_deb_build (sha256sum file pool refbase : string)
  : M (string * string) :=
  let data := head_of (refbase +:+ "/data") in
  let control := head_of (refbase +:+ "/control") in
  _ ← ninja_build [data; control] "download_deb" [] [] order_only_config
        (<["sha256sum" := sha256sum]> (<["filename" := file]>
         (<["aptly_pool_filename" := pool]> (<["ref_base" := refbase]> ∅))));
  mret (data, control).

(** [status, available, info = make_dpkg_info.build(ninja, sha256sum=..,
    pkgname=.., ref_base=..)] *)
Definition make_dpkg_info_build (sha256sum pkgname refbase : string)
  : M (string * string * string) :=
  let status := builddir +:+ "/" +:+ refbase +:+ "/status" in
  let available := builddir +:+ "/" +:+ refbase +:+ "/available" in
  let info := head_of (refbase +:+ "/info") in
  _ ← ninja_build [status; available; info] "make_dpkg_info"
        [head_of (refbase +:+ "/control")] [] order_only_config
        (<["sha256sum" := sha256sum]> (<["pkgname" := pkgname]>
         (<["ref_base" := refbase]> ∅)));
  mret (status, available, info).

(** [deb_combine_meta.build(ninja, inputs=.., pkgs_digest=.., meta=..)] *)
Definition deb_combine_meta_build (inputs : list string)
    (pkgs_digest meta : string) : M (list string) :=
  ninja_build [head_of ("deb/images/" +:+ pkgs_digest +:+ "/" +:+ meta)]
    "deb_combine_meta" inputs [] order_only_config
    (<["pkgs_digest" := pkgs_digest]> (<["meta" := meta]> ∅)).

(** [dpkg_configure.build(ninja, in_branch=.., out_branch=..)] *)
Definition dpkg_configure_build (in_branch out_branch : string)
  : M (list string) :=
  ninja_build [head_of out_branch] "dpkg_configure" [head_of in_branch] []
    order_only_config
    (<["in_branch" := in_branch]> (<["out_branch" := out_branch]> ∅)).

(** Modelled from the spec: the build statement of [ostree_combine], a rule
    of [ostree.py], which is not among the sources.  The spec publishes a
    tree under [<namespace>/<key>/<facet>] in the store; [apt.py] binds the
    single output of the statement ([image, = ostree_combine.build(..)]) and
    names the branch in the [branch] variable. *)
Definition ostree_combine_build (inputs implicit : list string)
    (branch : string) : M (list string) :=
  ninja_build [head_of branch] "ostree_combine" inputs implicit
    order_only_config (<["branch" := branch]> ∅).

(** [Apt.generate_lockfile] *)
Definition generate_lockfile (lockfile : string)
    (packages : option (list string))
    (architecture distribution archive_url : option string) : M string :=
  let packages := default [] packages in
  let architecture := default "amd64" architecture in
  let distribution := default "xenial" distribution in
  let archive_url := default "http://archive.ubuntu.com/ubuntu" archive_url in
  let packages := sorted packages in
  out ← update_lockfile_build (packages_filter packages) architecture
          archive_url distribution lockfile;
  _ ← add_update_lockfile_rules out;
  mret lockfile.

(** The body of the loop over the records of the lockfile: the four outputs
    that the loop appends to [all_data], [all_info], [all_status] and
    [all_available]. *)
Definition package_rules (pkg : pkg_dict)
  : M (string * string * string * string) :=
  quoted ← getitem pkg "Filename";
  let file := unquote quoted in
  sha256 ← getitem pkg "SHA256";
  let pool := aptly_pool_filename sha256 file in
  let refbase := ref_base pool in
  '(data, control) ← download_deb_build sha256 file pool refbase;
  pkgname ← getitem pkg "Package";
  '(status, available, info) ← make_dpkg_info_build sha256 pkgname refbase;
  mret (data, info, status, available).

(** The [try] block of [image_from_lockfile]: the four lists after the
    loop.  The generator is resumed only after the body ran on the record
    it yielded, so an exception of the parser comes after the statements of
    all the records yielded before it. *)
Definition lockfile_rules (lockfile : string)
  : M (list string * list string * list string * list string) :=
  stream ← ninja_open lockfile;
  outs ← for_each (parse_packages stream).1 package_rules;
  match (parse_packages stream).2 with
  | Some e => raise e
  | None =>
      mret ((λ o, o.1.1.1) <$> outs, (λ o, o.1.1.2) <$> outs,
            (λ o, o.1.2) <$> outs, (λ o, o.2) <$> outs)
  end.

(** The statements of [image_from_lockfile] that follow the [try] block,
    from [digest = lockfile.replace('/', '_')] on. *)
Definition image_rules (lockfile : string)
    (base all_data all_info all_status all_available : list string)
  : M OstreeRef :=
  let digest := image_digest lockfile in
  rootfs ← ostree_combine_build all_data []
             ("deb/images/" +:+ digest +:+ "/data_combined");
  dpkg_infos ← ostree_combine_build all_info []
                 ("deb/images/" +:+ digest +:+ "/info_combined");
  dpkg_status ← deb_combine_meta_build all_status digest "status";
  dpkg_available ← deb_combine_meta_build all_available digest "available";
  images ← ostree_combine_build
              (base ++ dpkg_infos ++ dpkg_status ++ dpkg_available ++ rootfs)
              [lockfile] ("deb/images/" +:+ digest +:+ "/unpacked");
  match images with
  | [image] =>
      _ ← ninja_build ["unpacked-image-for-" +:+ lockfile] "phony" [image]
            [] [] ∅;
      mret (ostree_ref image)
  | _ => raise ValueError
  end.

(** [Apt.image_from_lockfile].  The only [IOError] of the model is the one
    [open] raises, before any record is read: the four lists are empty when
    the handler swallows it. *)
Definition image_from_lockfile (lockfile : string)
    (architecture : option string) : M OstreeRef :=
  let architecture := default "amd64" architecture in
  base ← dpkg_base_build architecture;
  mirrors ← get_deb_pool_mirrors;
  _ ← ninja_write "_build/deb_pool_mirrors"
        (join "" ((λ x, x +:+ nl) <$> mirrors));
  '(all_data, all_info, all_status, all_available) ←
    except_enoent (lockfile_rules lockfile) ([], [], [], []);
  image_rules lockfile base all_data all_info all_status all_available.

(** [Apt.build_image_unpacked] *)
Definition build_image_unpacked (lockfile : string)
    (packages : option (list string))
    (architecture distribution archive_url : option string) : M OstreeRef :=
  _ ← generate_lockfile lockfile packages architecture distribution archive_url;
  image_from_lockfile lockfile architecture.

(** [Apt.build_image] *)
Definition build_image (lockfile : string) (packages : option (list string))
    (architecture distribution archive_url : option string) : M OstreeRef :=
  unpacked ← build_image_unpacked lockfile packages architecture distribution
               archive_url;
  c_ref ← dpkg_configure_build (ref unpacked)
            (replace "unpacked" "configured" (ref unpacked));
  _ ← ninja_build ["image-for-" +:+ lockfile] "phony" c_ref [] [] ∅;
  match c_ref with
  | first :: _ => mret (ostree_ref first)
  | [] => raise IndexError
  end.

End Generator.

(** ** sha256sum(1): SHA-256 as FIPS 180-4 defines it *)

Module SHA256.

Local Open Scope N_scope.

(** Words of 32 bits, as numbers below [2^32]. *)
Definition w32 (x : N) : N := x mod 4294967296.
Definition add32 (x y : N) : N := w32 (x + y).
Definition rotr (n x : N) : N :=
  N.lor (N.shiftr x n) (w32 (N.shiftl x (32 - n))).
Definition ch (x y z : N) : N :=
  N.lxor (N.land x y) (N.land (N.lxor x 4294967295) z).
Definition maj (x y z : N) : N :=
  N.lxor (N.lxor (N.land x y) (N.land x z)) (N.land y z).
Definition bsig0 (x : N) : N := N.lxor (N.lxor (rotr 2 x) (rotr 13 x)) (rotr 22 x).
Definition bsig1 (x : N) : N := N.lxor (N.lxor (rotr 6 x) (rotr 11 x)) (rotr 25 x).
Definition ssig0 (x : N) : N := N.lxor (N.lxor (rotr 7 x) (rotr 18 x)) (N.shiftr x 3).
Definition ssig1 (x : N) : N := N.lxor (N.lxor (rotr 17 x) (rotr 19 x)) (N.shiftr x 10).

(** The first [count] primes from the candidates below [bound]. *)
Definition is_prime (p : N) : bool :=
  (2 <=? p) && forallb (λ d, negb (p mod N.of_nat d =? 0))
                 (seq 2 (N.to_nat p - 2)).

Definition primes (count bound : nat) : list N :=
  firstn count (filter (λ p, is_prime p = true) (N.of_nat <$> seq 0 bound)).

(** The integer part of the cube root of a number below [2^108], found bit
    by bit from the top. *)
Definition cube_root (n : N) : N :=
  foldl (λ r bit, let r' := r + N.shiftl 1 (N.of_nat bit) in
                  if r' * r' * r' <=? n then r' else r)
    0 (reverse (seq 0 36)).

(** The round constants: the first 32 bits of the fractional parts of the
    cube roots of the first 64 primes. *)
Definition K : list N :=
  (λ p, w32 (cube_root (N.shiftl p 96))) <$> primes 64 312.

(** The initial hash value: the first 32 bits of the fractional parts of
    the square roots of the first 8 primes. *)
Definition H0 : list N :=
  (λ p, w32 (N.sqrt (N.shiftl p 64))) <$> primes 8 20.

(** The message with its padding: a bit 1, zeros up to 56 modulo 64 bytes,
    and the length in bits on 8 bytes, most significant first. *)
Definition be_bytes (count : nat) (x : N) : list N :=
  (λ i, (N.shiftr x (8 * N.of_nat i)) mod 256) <$> reverse (seq 0 count).

Definition pad (msg : list N) : list N :=
  let len := length msg in
  let zeros := ((64 - (len + 9) `mod` 64) `mod` 64)%nat in
  msg ++ 128 :: replicate zeros 0 ++ be_bytes 8 (8 * N.of_nat len).

(** Four bytes, most significant first, as a word. *)
Fixpoint words (bytes : list N) : list N :=
  match bytes with
  | a :: b :: c :: d :: rest =>
      (N.shiftl a 24 + N.shiftl b 16 + N.shiftl c 8 + d) :: words rest
  | _ => []
  end.

(** The message schedule, grown by [n] words: [w] holds the words so far in
    reverse order, the last one first. *)
Fixpoint schedule (n : nat) (w : list N) : list N :=
  match n with
  | O => w
  | S n' =>
      let at_ i := default 0 (w !! i) in
      schedule n'
        (add32 (add32 (ssig1 (at_ 1%nat)) (at_ 6%nat))
               (add32 (ssig0 (at_ 14%nat)) (at_ 15%nat)) :: w)
  end.

Definition round (s : list N) (kw : N * N) : list N :=
  match s with
  | [a; b; c; d; e; f; g; h] =>
      let t1 := add32 (add32 (add32 h (bsig1 e)) (add32 (ch e f g) kw.1)) kw.2 in
      let t2 := add32 (bsig0 a) (maj a b c) in
      [add32 t1 t2; a; b; c; add32 d t1; e; f; g]
  | _ => s
  end.

(** One block of 16 words into the hash value. *)
Definition compress (h : list N) (block : list N) : list N :=
  let w := reverse (schedule 48 (reverse block)) in
  zip_with add32 h (foldl round h (zip K w)).

Fixpoint blocks (fuel : nat) (h : list N) (w : list N) : list N :=
  match fuel, w with
  | S fuel', _ :: _ => blocks fuel' (compress h (firstn 16 w)) (skipn 16 w)
  | _, _ => h
  end.

Definition hex_digit (x : N) : ascii :=
  ascii_of_N (if x <? 10 then 48 + x else 87 + x).

Definition hex_word (x : N) : string :=
  String.string_of_list_ascii
    ((λ i, hex_digit ((N.shiftr x (4 * N.of_nat i)) mod 16)) <$> reverse (seq 0 8)).

(** The digest of a file with the given bytes, in hexadecimal, as
    [sha256sum] prints it. *)
Definition hexdigest (bytes : string) : string :=
  let w := words (pad (N_of_ascii <$> String.list_ascii_of_string bytes)) in
  String.concat "" (hex_word <$> blocks (length w) H0 w).

End SHA256.

(** ** Words of the shell *)

(** Ninja puts the values of the variables of a build statement into the
    text of the command as they are, most of them outside quotes, and sh
    reads the result.  A value that is not empty, does not start with [-]
    and is made of the bytes below is read by sh as the one word it is: sh
    does not split it, expand it, take it for an operator or a comment, and
    the tools do not take it for an option.  The models of the scripts
    below say what the scripts do on such values. *)
Definition word_byte (c : ascii) : bool :=
  occurs c
    "abcdefghijklmnopqrstuvwxyzABCDEFGHIJKLMNOPQRSTUVWXYZ0123456789_-./+,@%:".

Fixpoint every (p : ascii → bool) (s : string) : bool :=
  match s with
  | "" => true
  | String c s' => p c && every p s'
  end.

Definition shell_word (s : string) : bool :=
  match s with
  | "" => false
  | String c _ => negb (Ascii.eqb c "-") && every word_byte s
  end.

Definition shell_words (l : list string) : bool := forallb shell_word l.

(** ** The shell body of [download_deb]: fetching the archive *)

Module DownloadDeb.

(** How the fetching part of the script ends: [exit 1] after the loop, or
    the script goes on to unpack and commit the bytes of [$tmpdir/deb]. *)
Inductive outcome : Type :=
  | Exit1
  | Unpacks (deb : string).

Section Script.

(** The tools the script calls.  [sha256sum bytes] is the digest that
    sha256sum(1) prints for a file with these bytes.  [curl url] is what
    [curl -L --fail -o $tmpdir/deb url] leaves in the file: [Some bytes] when
    it writes it, [None] when it fails without writing.  The script does not
    look at the exit status of curl. *)
Variable sha256sum : string → string.
Variable curl : string → option string.

(** [$PWD], and the ninja variables [$builddir], [$sha256sum], [$filename]
    and [$aptly_pool_filename] of the build statement.  The script uses
    them outside quotes ([tmpdir=$builddir/tmp/download-deb/$aptly_pool_filename],
    [download $mirror/${filename}], ...): the definitions below are the
    script for values that are words of the shell ([shell_word]), and so
    are the mirrors that [read mirror] takes from the list. *)
Variables pwd builddir expected filename pool : string.

(** [$(sha256sum $tmpdir/deb | cut -f1 -d ' ')]: empty when there is no
    file, since sha256sum then prints nothing on its standard output. *)
Definition actual_sha256 (deb : option string) : string :=
  match deb with
  | Some bytes => sha256sum bytes
  | None => ""
  end.

(** The shell function [download], on the contents of [$tmpdir/deb]:
    whether it returned 0, and the contents afterwards. *)
Definition download (url : string) (deb : option string)
  : bool * option string :=
  let deb' := match curl url with Some bytes => Some bytes | None => deb end in
  (String.eqb (actual_sha256 deb') expected, deb').

Definition cache_url : string :=
  "file://" +:+ pwd +:+ "/" +:+ builddir +:+ "/apt/mirror/" +:+ filename.

(** [while read mirror; do A && break; B && break; C && break; done] *)
Fixpoint mirrors_loop (mirrors : list string) (deb : option string)
  : option string :=
  match mirrors with
  | [] => deb
  | mirror :: rest =>
      let r1 := download cache_url deb in
      if r1.1 then r1.2 else
      let r2 := download (mirror +:+ "/" +:+ filename) r1.2 in
      if r2.1 then r2.2 else
      let r3 := download (mirror +:+ "/" +:+ pool) r2.2 in
      if r3.1 then r3.2 else
      mirrors_loop rest r3.2
  end.

(** The script up to [cd $tmpdir; ar x deb], started with [deb0] in
    [$tmpdir/deb] ([mkdir -p] does not empty a directory left behind):
    [if ! [ -e $tmpdir/deb ]; then ... exit 1; fi]. *)
Definition fetch (mirrors : list string) (deb0 : option string) : outcome :=
  match mirrors_loop mirrors deb0 with
  | None => Exit1
  | Some bytes => Unpacks bytes
  end.

(** The URLs the loop passes to [download], in the order of the calls when
    none of them returns 0. *)
Definition sources (mirrors : list string) : list string :=
  mirrors ≫= λ mirror,
    [cache_url; mirror +:+ "/" +:+ filename; mirror +:+ "/" +:+ pool].

(** [download] on each URL in turn until one call returns 0: whether one
    did, and [$tmpdir/deb] afterwards. *)
Fixpoint try_sources (urls : list string) (deb : option string)
  : bool * option string :=
  match urls with
  | [] => (false, deb)
  | url :: rest =>
      if (download url deb).1 then (true, (download url deb).2)
      else try_sources rest (download url deb).2
  end.

(** [$tmpdir/deb] after curl ran on every URL of [urls]: the bytes of the
    last URL for which it wrote the file. *)
Definition last_written (urls : list string) (deb : option string)
  : option string :=
  foldl (λ d url, match curl url with Some bytes => Some bytes | None => d end)
    deb urls.

(** A source yields the bytes the record asks for. *)
Definition matches (url : string) : Prop :=
  ∃ bytes, curl url = Some bytes ∧ sha256sum bytes = expected.

(** The order of the sources in the words of the specification: the local
    cache keyed by the pool path, each mirror in the order given, the pool
    path on the last mirror. *)
Definition stated_sources (mirrors : list string) : list string :=
  ("file://" +:+ pwd +:+ "/" +:+ builddir +:+ "/apt/mirror/" +:+ pool)
    :: ((λ mirror, mirror +:+ "/" +:+ filename) <$> mirrors)
    ++ match last mirrors with
       | Some mirror => [mirror +:+ "/" +:+ pool]
       | None => []
       end.

End Script.

End DownloadDeb.

(** ** The shell bodies of [make_dpkg_info] and [update_lockfile]:
       publishing a file only when it changed *)

Module Publish.

(** A file with the part of its metadata that ninja reads to decide whether
    a target is out of date. *)
Record file : Type := { content : string; mtime : nat }.

Abbreviation fs := (gmap string file).

(** The exit status of [cmp a b]: 0 for equal contents, 1 for different
    ones, 2 when a file cannot be read. *)
Definition cmp (a b : string) (disk : fs) : Z :=
  match disk !! a, disk !! b with
  | Some x, Some y => if decide (content x = content y) then 0%Z else 1%Z
  | _, _ => 2%Z
  end.

(** [mv a b] renames: [b] is the file that was at [a], with its metadata.
    [None] when [mv] fails, which ends the script under [set -e]. *)
Definition mv (a b : string) (disk : fs) : option fs :=
  match disk !! a with
  | Some x => Some (<[b := x]> (delete a disk))
  | None => None
  end.

(** [cmd >path]: the file at [path] is created or truncated and written. *)
Definition redirect (path text : string) (now : nat) (disk : fs) : fs :=
  <[path := {| content := text; mtime := now |}]> disk.






(** [( cat control/control; echo Status: install ok unpacked; echo )] *)
Definition status_record (control : string) : string :=
  control +:+ "Status: install ok unpacked" +:+ nl +:+ nl.

(** [( cat control/control; echo )] *)
Definition available_record (control : string) : string := control +:+ nl.


(** The end of [update_lockfile], from [aptly mirror update ... >$lockfile~]
    on, with [listing] the output of aptly:
    [if cmp $lockfile~ $lockfile; then rm $lockfile~;
     else mv $lockfile~ $lockfile; fi].  [$lockfile] is outside quotes:
    this is the script for a lockfile whose path is a word of the shell
    ([shell_word]) and whose directory exists. *)
Definition update_lockfile_write (lockfile listing : string) (now : nat)
    (disk : fs) : option fs :=
  let disk := redirect (lockfile +:+ "~") listing now disk in
  if decide (cmp (lockfile +:+ "~") lockfile disk = 0%Z)
  then Some (delete (lockfile +:+ "~") disk)
  else mv (lockfile +:+ "~") lockfile disk.


End Publish.

(** ** Combining trees *)

Module Combine.

(** A tree of the store: the content found at each path. *)
Abbreviation tree := (gmap string string).

Inductive result : Type :=
  | MergeConflictError
  | Combined (t : tree).

(** Modelled from the spec: the merge that the [ostree_combine] rule of
    [ostree.py] runs; that file is not among the sources.  The output is the
    union of the input trees, and a path present in two inputs is an
    irrecoverable conflict that fails the build. *)
Fixpoint combine (inputs : list tree) : result :=
  match inputs with
  | [] => Combined ∅
  | t :: rest =>
      match combine rest with
      | MergeConflictError => MergeConflictError
      | Combined u =>
          if decide (dom t ∩ dom u = (∅ : gset string)) then Combined (t ∪ u)
          else MergeConflictError
      end
  end.

End Combine.

(** ** Auxiliary definitions for the proofs *)

(** The values of [pkg] and [label] when the loop of [parse_packages] has
    consumed [stream] without raising; [None] when it raised. *)
Fixpoint loop_end (stream : list string) (pkg : pkg_dict)
    (label : option string) : option (pkg_dict * option string) :=
  match stream with
  | [] => Some (pkg, label)
  | line :: rest =>
      if String.eqb (strip line) "" then loop_end rest ∅ None
      else if String.eqb line " ." then
        match append_field pkg label (nl +:+ nl) with
        | inl _ => None
        | inr pkg' => loop_end rest pkg' label
        end
      else if startswith " " line then
        match append_field pkg label (nl +:+ strip (drop 1 line)) with
        | inl _ => None
        | inr pkg' => loop_end rest pkg' label
        end
      else
        match split_once ": " line with
        | None => None
        | Some (l, data) => loop_end rest (<[l := strip data]> pkg) (Some l)
        end
  end.

(** A line on which the loop takes its first branch. *)
Definition blank (line : string) : Prop := strip line = "".

(** [old in s] *)
Fixpoint contains (old s : string) : bool :=
  startswith old s ||
  match s with
  | "" => false
  | String _ s' => contains old s'
  end.

(** The branch of the unpacked image of a lockfile. *)
Definition unpacked_branch (lockfile : string) : string :=
  "deb/images/" +:+ image_digest lockfile +:+ "/unpacked".

(** The statements [image_from_lockfile] writes for an image without
    packages: the base tree, the four combinations of nothing, the image and
    its phony target. *)
Definition empty_image_statements (ostree_repo lockfile architecture : string)
  : list build :=
  let digest := image_digest lockfile in
  let head := head_of ostree_repo in
  let config := [ostree_repo +:+ "/config"] in
  [ Build [head ("deb/dpkg-base/" +:+ architecture)] "dpkg_base" [] [] config
      (<["architecture" := architecture]> ∅);
    Build [head ("deb/images/" +:+ digest +:+ "/data_combined")]
      "ostree_combine" [] [] config
      (<["branch" := "deb/images/" +:+ digest +:+ "/data_combined"]> ∅);
    Build [head ("deb/images/" +:+ digest +:+ "/info_combined")]
      "ostree_combine" [] [] config
      (<["branch" := "deb/images/" +:+ digest +:+ "/info_combined"]> ∅);
    Build [head ("deb/images/" +:+ digest +:+ "/status")]
      "deb_combine_meta" [] [] config
      (<["pkgs_digest" := digest]> (<["meta" := "status"]> ∅));
    Build [head ("deb/images/" +:+ digest +:+ "/available")]
      "deb_combine_meta" [] [] config
      (<["pkgs_digest" := digest]> (<["meta" := "available"]> ∅));
    Build [head (unpacked_branch lockfile)] "ostree_combine"
      [head ("deb/dpkg-base/" +:+ architecture);
       head ("deb/images/" +:+ digest +:+ "/info_combined");
       head ("deb/images/" +:+ digest +:+ "/status");
       head ("deb/images/" +:+ digest +:+ "/available");
       head ("deb/images/" +:+ digest +:+ "/data_combined")]
      [lockfile] config (<["branch" := unpacked_branch lockfile]> ∅);
    Build ["unpacked-image-for-" +:+ lockfile] "phony"
      [head (unpacked_branch lockfile)] [] [] ∅ ].

(** The text of a file whose lines are [lines], each ended by a line feed. *)
Definition text_of (lines : list string) : string :=
  join "" ((λ line, line +:+ nl) <$> lines).

(** The pool path in the words of the specification:
    [D[0:2]/D[2:4]/D[4:]_f]. *)
Definition stated_pool_path (D f : string) : string :=
  String.substring 0 2 D +:+ "/" +:+ String.substring 2 2 D +:+ "/"
    +:+ String.substring 4 (String.length D - 4) D +:+ "_" +:+ f.

(** A string with every [+] and every [~] replaced by [_]. *)
Fixpoint underscored (s : string) : string :=
  match s with
  | "" => ""
  | String c s' =>
      String (if bool_decide (c = "+"%char ∨ c = "~"%char) then "_"%char else c)
        (underscored s')
  end.

(** A lockfile with one package, whose file name is percent-encoded. *)
Definition example_sha256 : string :=
  "e3b0c44298fc1c149afbf4c8996fb92427ae41e4649b934ca495991b7852b855".

Definition example_filename : string :=
  "pool/main/g/gcc-defaults/g%2B%2B_5.3.1-1ubuntu1~16.04_amd64.deb".

Definition example_lockfile : string :=
  text_of
    ["Package: g++"; "Filename: " +:+ example_filename;
     "SHA256: " +:+ example_sha256; ""].

Definition example_record : pkg_dict :=
  <["Package" := "g++"]> (<["Filename" := example_filename]>
  (<["SHA256" := example_sha256]> ∅)).

(** An [Apt] object that has not built anything yet, in a directory with
    two copies of that lockfile and a lockfile that cannot be read
    ([EACCES]). *)
Definition example_apt : apt :=
  Apt [] (<["a.lock" := File example_lockfile]>
          (<["b.lock" := File example_lockfile]>
          (<["secret.lock" := Unreadable 13]> ∅)))
      ∅ ["http://archive.ubuntu.com/ubuntu"; "http://ftp.debian.org/debian/"].

(** The branch of the ref that a method returned, if it returned. *)
Definition returned_ref (r : (exn + OstreeRef) * apt) : option string :=
  match r.1 with
  | inr x => Some (ref x)
  | inl _ => None
  end.

(** The value of a variable in the first statement of a rule. *)
Definition statement_variable (rule name : string) (st : apt) : option string :=
  b ← list_find (λ b, b_rule b = rule) (builds st);
  b_variables b.2 !! name.

(** A package record for the examples of fetching: an archive whose bytes
    are [hello_deb], and the variables of its [download_deb] statement. *)
Definition hello_deb : string := "good bytes".

Definition hello_sha256 : string :=
  "d6004ba597d097dfd95ac55076dbf03325b89d41b94fe8366c310a779ae57be5".

Definition hello_filename : string := "pool/main/h/hello/hello_2.10-1_amd64.deb".

Definition hello_pool : string :=
  "d6/00/4ba597d097dfd95ac55076dbf03325b89d41b94fe8366c310a779ae57be5_hello_2.10-1_amd64.deb".

(** Two mirrors.  In the first world the first mirror serves a corrupt
    file and the second the right one, both under the file name; in the
    second world only the first mirror has the archive, under its pool
    path; in the third every request is answered by the same page that is
    not the archive. *)
Definition mirror_a : string := "http://a.example/debian".
Definition mirror_b : string := "http://b.example/debian".

Definition curl_second_mirror (url : string) : option string :=
  if String.eqb url (mirror_a +:+ "/" +:+ hello_filename) then Some "corrupt"
  else if String.eqb url (mirror_b +:+ "/" +:+ hello_filename)
       then Some hello_deb
  else None.

Definition curl_pool_of_first (url : string) : option string :=
  if String.eqb url (mirror_a +:+ "/" +:+ hello_pool) then Some hello_deb
  else None.

Definition curl_login_page (url : string) : option string :=
  if startswith "http://" url then Some "<html>Please log in</html>" else None.


(** ** Fields of a record, as the lines of a Packages file spell them *)

(** A field: its label, the first line of its value, and the further lines
    of the value. *)
Abbreviation field := (string * string * list string)%type.

(** The lines of a field: [label: value], then one line per further line
    of the value, each behind a space.  Every line ends with its line
    feed, as the lines of a file do. *)
Definition field_lines (f : field) : list string :=
  (f.1.1 +:+ ": " +:+ f.1.2 +:+ nl) :: ((λ more, " " +:+ more +:+ nl) <$> f.2).

(** The value of the field: its lines without the white space around
    them, joined by line feeds. *)
Definition field_value (f : field) : string :=
  strip f.1.2 +:+ join "" ((λ more, nl +:+ strip more) <$> f.2).

(** What makes the lines above one field for the parser: the label has no
    [": "] in it and no space in front, and no further line is blank. *)
Definition field_ok (f : field) : Prop :=
  split_once ": " f.1.1 = None ∧ startswith " " f.1.1 = false
  ∧ Forall (λ more, strip more ≠ "") f.2.

(** [pkg[label] = value] for each field in turn: of two fields with the
    same label the later one stays. *)
Definition set_fields (pkg : pkg_dict) (fields : list field) : pkg_dict :=
  foldl (λ pkg f, <[f.1.1 := field_value f]> pkg) pkg fields.

(** ** The statements of an image, for the properties of
       [image_from_lockfile] *)

(** The path of the list of mirrors. *)
Definition deb_pool_mirrors_path : string := "_build/deb_pool_mirrors".

(** The [Apt] object after some more statements were written. *)
Definition with_builds (st : apt) (news : list build) : apt :=
  Apt (builds st ++ news) (files st) (update_lockfile_rules st)
    (deb_pool_mirrors st).

Section Statements.

Variables ostree_repo builddir : string.

(** The first key that the body of the loop over the records fails to
    find, in the order in which it reads them: [pkg['Filename']],
    [pkg['SHA256']], and after [download_deb.build], [pkg['Package']]. *)
Definition missing_key (pkg : pkg_dict) : option string :=
  if decide (pkg !! "Filename" = None) then Some "Filename"
  else if decide (pkg !! "SHA256" = None) then Some "SHA256"
  else if decide (pkg !! "Package" = None) then Some "Package"
  else None.

(** The [ref_base] of a record. *)
Definition package_ref_base (pkg : pkg_dict) : string :=
  ref_base (aptly_pool_filename (default "" (pkg !! "SHA256"))
              (unquote (default "" (pkg !! "Filename")))).

(** The four outputs of a record that the loop collects: data, info,
    status and available. *)
Definition package_data (pkg : pkg_dict) : string :=
  head_of ostree_repo (package_ref_base pkg +:+ "/data").
Definition package_info (pkg : pkg_dict) : string :=
  head_of ostree_repo (package_ref_base pkg +:+ "/info").
Definition package_status (pkg : pkg_dict) : string :=
  builddir +:+ "/" +:+ package_ref_base pkg +:+ "/status".
Definition package_available (pkg : pkg_dict) : string :=
  builddir +:+ "/" +:+ package_ref_base pkg +:+ "/available".

(** The two statements of a record. *)
Definition download_deb_statement (pkg : pkg_dict) : build :=
  let sha256 := default "" (pkg !! "SHA256") in
  let file := unquote (default "" (pkg !! "Filename")) in
  Build [package_data pkg;
         head_of ostree_repo (package_ref_base pkg +:+ "/control")]
    "download_deb" [] [] (order_only_config ostree_repo)
    (<["sha256sum" := sha256]> (<["filename" := file]>
     (<["aptly_pool_filename" := aptly_pool_filename sha256 file]>
     (<["ref_base" := package_ref_base pkg]> ∅)))).

Definition make_dpkg_info_statement (pkg : pkg_dict) : build :=
  Build [package_status pkg; package_available pkg; package_info pkg]
    "make_dpkg_info"
    [head_of ostree_repo (package_ref_base pkg +:+ "/control")] []
    (order_only_config ostree_repo)
    (<["sha256sum" := default "" (pkg !! "SHA256")]>
     (<["pkgname" := default "" (pkg !! "Package")]>
     (<["ref_base" := package_ref_base pkg]> ∅))).

(** The statements written when the body of the loop runs on a record:
    both for a record with the three keys, the first one only when
    [Package] is the key that is missing, none otherwise. *)
Definition package_statements (pkg : pkg_dict) : list build :=
  match missing_key pkg with
  | None => [download_deb_statement pkg; make_dpkg_info_statement pkg]
  | Some key =>
      if String.eqb key "Package" then [download_deb_statement pkg] else []
  end.

(** The statements written by the loop over some records: those of the
    records up to the first one that lacks a key, that one included. *)
Fixpoint lockfile_statements (records : list pkg_dict) : list build :=
  match records with
  | [] => []
  | pkg :: rest =>
      package_statements pkg
        ++ match missing_key pkg with
           | None => lockfile_statements rest
           | Some _ => []
           end
  end.

(** The key that the first record lacking one lacks. *)
Definition first_missing_key (records : list pkg_dict) : option string :=
  head (omap missing_key records).

(** The statement of the base tree. *)
Definition dpkg_base_statement (architecture : string) : build :=
  Build [head_of ostree_repo ("deb/dpkg-base/" +:+ architecture)] "dpkg_base"
    [] [] (order_only_config ostree_repo) (<["architecture" := architecture]> ∅).

(** The statements that follow the loop: the four combinations of what the
    records gave, the image and its phony target. *)
Definition image_statements (lockfile architecture : string)
    (records : list pkg_dict) : list build :=
  let digest := image_digest lockfile in
  let head := head_of ostree_repo in
  let config := order_only_config ostree_repo in
  [ Build [head ("deb/images/" +:+ digest +:+ "/data_combined")]
      "ostree_combine" (package_data <$> records) [] config
      (<["branch" := "deb/images/" +:+ digest +:+ "/data_combined"]> ∅);
    Build [head ("deb/images/" +:+ digest +:+ "/info_combined")]
      "ostree_combine" (package_info <$> records) [] config
      (<["branch" := "deb/images/" +:+ digest +:+ "/info_combined"]> ∅);
    Build [head ("deb/images/" +:+ digest +:+ "/status")]
      "deb_combine_meta" (package_status <$> records) [] config
      (<["pkgs_digest" := digest]> (<["meta" := "status"]> ∅));
    Build [head ("deb/images/" +:+ digest +:+ "/available")]
      "deb_combine_meta" (package_available <$> records) [] config
      (<["pkgs_digest" := digest]> (<["meta" := "available"]> ∅));
    Build [head (unpacked_branch lockfile)] "ostree_combine"
      [head ("deb/dpkg-base/" +:+ architecture);
       head ("deb/images/" +:+ digest +:+ "/info_combined");
       head ("deb/images/" +:+ digest +:+ "/status");
       head ("deb/images/" +:+ digest +:+ "/available");
       head ("deb/images/" +:+ digest +:+ "/data_combined")]
      [lockfile] config (<["branch" := unpacked_branch lockfile]> ∅);
    Build ["unpacked-image-for-" +:+ lockfile] "phony"
      [head (unpacked_branch lockfile)] [] [] ∅ ].

(** The [Apt] object when [image_from_lockfile] opens the lockfile: the
    statement of the base tree and the list of mirrors are written. *)
Definition opening (architecture : string) (st : apt) : apt :=
  Apt (builds st ++ [dpkg_base_statement architecture])
    (<[deb_pool_mirrors_path := File (text_of (deb_pool_mirrors st))]>
       (files st))
    (update_lockfile_rules st) (deb_pool_mirrors st).

(** What the [try] block of [image_from_lockfile] comes to, read off the
    lockfile: the exception that leaves the method or the records that the
    image is made of, and the statements written by the loop. *)
Definition image_outcome (lockfile : string) (st : apt)
  : (exn + list pkg_dict) * list build :=
  match files st !! lockfile with
  | None => (inr [], [])
  | Some (Unreadable errno) =>
      if decide (errno = ENOENT) then (inr [], [])
      else (inl (IOError errno), [])
  | Some (File text) =>
      let records := (parse_packages_file text).1 in
      (match first_missing_key records with
       | Some key => inl (KeyError (Some key))
       | None =>
           match (parse_packages_file text).2 with
           | Some e => inl e
           | None => inr records
           end
       end, lockfile_statements records)
  end.

End Statements.

(** The outputs known after some statements. *)
Definition outputs_of (known : gset string) (statements : list build)
  : gset string :=
  foldl (λ known b, known ∪ list_to_set (b_outputs b)) known statements.

(** Every input of every statement is an output of a statement before it
    in the list, or is in [known]. *)
Fixpoint inputs_produced (known : gset string) (statements : list build)
  : bool :=
  match statements with
  | [] => true
  | b :: rest =>
      forallb (λ x, bool_decide (x ∈ known)) (b_inputs b)
      && inputs_produced (known ∪ list_to_set (b_outputs b)) rest
  end.

(** Lockfiles for the examples: in the first the second record has no
    [Package] field, and both end in a line that is not a field. *)
Definition example_incomplete_lockfile : string :=
  text_of ["Package: a"; "Filename: pool/a.deb"; "SHA256: 0011aa"; "";
           "Filename: pool/b.deb"; "SHA256: 2233bb"; ""; "not a field"].

Definition example_broken_lockfile : string :=
  text_of ["Package: a"; "Filename: pool/a.deb"; "SHA256: 0011aa"; "";
           "not a field"].

Definition example_record_a : pkg_dict :=
  <["Package" := "a"]> (<["Filename" := "pool/a.deb"]>
  (<["SHA256" := "0011aa"]> ∅)).

Definition example_record_b : pkg_dict :=
  <["Filename" := "pool/b.deb"]> (<["SHA256" := "2233bb"]> ∅).

Definition example_apt_broken : apt :=
  Apt [] (<["incomplete.lock" := File example_incomplete_lockfile]>
          (<["broken.lock" := File example_broken_lockfile]> ∅))
      ∅ [mirror_a; mirror_b].

(** ** [Apt.write_phony_rules], and the statements of [build_image] *)

(** [self.ninja.build("update-apt-lockfiles", "phony",
    inputs=list(self._update_lockfile_rules))].  Python does not say in
    which order [list] goes through a set; the model takes the order of
    [elements], and the properties do not depend on it. *)
Definition write_phony_rules : M (list string) := λ st,
  ninja_build ["update-apt-lockfiles"] "phony"
    (elements (update_lockfile_rules st)) [] [] ∅ st.

(** The arguments of one call of [build_image]. *)
Record request : Type := Request {
  r_lockfile : string;
  r_packages : option (list string);
  r_architecture : option string;
  r_distribution : option string;
  r_archive_url : option string
}.

(** The statement that [generate_lockfile] writes. *)
Definition update_lockfile_statement (q : request) : build :=
  Build ["update-lockfile-" +:+ r_lockfile q] "update_lockfile" [".FORCE"] [] []
    (<["packages" := packages_filter (sorted (default [] (r_packages q)))]>
     (<["architecture" := default "amd64" (r_architecture q)]>
     (<["archive_url" :=
          default "http://archive.ubuntu.com/ubuntu" (r_archive_url q)]>
     (<["distribution" := default "xenial" (r_distribution q)]>
     (<["lockfile" := r_lockfile q]> ∅))))).

(** The two statements that [build_image] writes once it has the ref of
    the unpacked image: the configured image and its phony target. *)
Definition configured_statements (ostree_repo lockfile : string) : list build :=
  let unpacked := unpacked_branch lockfile in
  let configured := replace "unpacked" "configured" unpacked in
  [ Build [head_of ostree_repo configured] "dpkg_configure"
      [head_of ostree_repo unpacked] [] (order_only_config ostree_repo)
      (<["in_branch" := unpacked]> (<["out_branch" := configured]> ∅));
    Build ["image-for-" +:+ lockfile] "phony" [head_of ostree_repo configured]
      [] [] ∅ ].

Section Requests.

Variables ostree_repo builddir : string.

(** [build_image] on the arguments of a request. *)
Definition build_image_for (q : request) : M OstreeRef :=
  build_image ostree_repo builddir (r_lockfile q) (r_packages q)
    (r_architecture q) (r_distribution q) (r_archive_url q).

(** The [Apt] object after [generate_lockfile] on the arguments of a
    request. *)
Definition registered (q : request) (st : apt) : apt :=
  Apt (builds st ++ [update_lockfile_statement q]) (files st)
    (update_lockfile_rules st
       ∪ list_to_set ["update-lockfile-" +:+ r_lockfile q])
    (deb_pool_mirrors st).

End Requests.

(** Three calls of [build_image], two of them for the same lockfile. *)
Definition example_requests : list request :=
  [ Request "a.lock" (Some ["g++"]) None None None;
    Request "missing.lock" (Some ["hello"; "dash"]) (Some "arm64") None None;
    Request "a.lock" None None None None ].

(** ** The shell body of [make_dpkg_info]: the dpkg files of a package *)

Module DpkgInfo.

(** The files of the control archive that the [for x in ...] loop moves
    into the tree. *)
Definition maintainer_files : list string :=
  ["conffiles"; "config"; "md5sums"; "postinst"; "postrm"; "preinst";
   "prerm"; "shlibs"; "symbols"; "templates"; "triggers"].

(** [sed 's,^/$,/.,'] on one line. *)
Definition sed_root (line : string) : string :=
  if String.eqb line "/" then "/." else line.

(** [ostree ls -R $ref_base/data --nul-filenames-only | tr '\0' '\n'
    | sed 's,^/$,/.,'], for a data tree whose entries are named [names]. *)
Definition list_file (names : list string) : string :=
  join "" ((λ name, sed_root name +:+ nl) <$> names).

Definition info_dir : string := "var/lib/dpkg/info/".

(** A package name that the script reads as it is written and that names
    files of the directory [info]: a word of the shell without a slash.
    The names of Debian packages, made of lower case letters, digits, [+],
    [-] and [.], are of this kind. *)
Definition package_name (pkgname : string) : bool :=
  shell_word pkgname && negb (occurs "/" pkgname).

(** The tree that the script commits to [$ref_base/info], [$tmpdir/out],
    for a package named [pkgname] whose data tree has the entries [names]
    and whose control archive holds the files [control]:
    [$pkgname.list], and [$pkgname.$x] for every [x] of the loop that
    [control/$x] exists for.  [$pkgname] is outside quotes in the
    redirection to the list: this is the tree for a [package_name]. *)
Definition info_tree (pkgname : string) (names : list string)
    (control : gmap string string) : Combine.tree :=
  foldl (λ out x,
           match control !! x with
           | Some content =>
               <[info_dir +:+ pkgname +:+ "." +:+ x := content]> out
           | None => out
           end)
    {[ info_dir +:+ pkgname +:+ ".list" := list_file names ]}
    maintainer_files.

(** A package as the script sees it: the name, the entries of the data
    tree and the files of the control archive. *)
Abbreviation package := (string * list string * gmap string string)%type.

Definition info_tree_of (p : package) : Combine.tree :=
  info_tree p.1.1 p.1.2 p.2.

End DpkgInfo.

(** Three packages for the examples, two of them with the same name. *)
Definition example_packages : list DpkgInfo.package :=
  [ ("dash", ["/"; "/bin"; "/bin/dash"],
     <["control" := "Package: dash"]> (<["postinst" := "#!/bin/sh"]> ∅));
    ("libstdc++6", ["/"], {["control" := "Package: libstdc++6"]});
    ("dash", [], {["control" := "Package: dash"]}) ].

(** ** The shell body of [deb_combine_meta], and control files *)

Module CombineMeta.

(** [cat $in >$tmpdir/var/lib/dpkg/$meta], on the contents of the inputs
    in the order of the statement. *)
Definition cat (inputs : list string) : string := join "" inputs.

End CombineMeta.

(** The text of a control file with the given fields. *)
Definition control_text (fields : list field) : string :=
  join "" (fields ≫= field_lines).

(** A field that is written on the lines of [field_lines] and no more: it
    has no line feed of its own. *)
Definition field_plain (f : field) : Prop :=
  occurs "010" f.1.1 = false ∧ occurs "010" f.1.2 = false
  ∧ Forall (λ more, occurs "010" more = false) f.2.

(** The field that [echo Status: install ok unpacked] adds. *)
Definition status_field : field := ("Status", "install ok unpacked", []).

(** A line of a file: some bytes without a line feed, and a line feed. *)
Definition ended (line : string) : Prop :=
  ∃ s, line = s +:+ nl ∧ occurs "010" s = false.

(** The lines of a paragraph: those of its fields, and an empty line. *)
Definition paragraph (fields : list field) : list string :=
  (fields ≫= field_lines) ++ [nl].

(** The control files of two packages. *)
Definition example_controls : list (list field) :=
  [ [("Package", "dash", []); ("Version", "0.5.8-2.1", []);
     ("Description", "POSIX-compliant shell", ["The Debian Almquist Shell"])];
    [("Package", "hello", []); ("Version", "2.10-1", [])] ].

(** ** The shell body of [download_deb]: the local mirror *)

Module Mirror.

(** How a run of the script ends: it fails, under [set -e] or by [exit 1],
    or it commits the bytes of [$tmpdir/deb]. *)
Inductive result : Type :=
  | Failed
  | Committed (deb : string).

Section Script.

(** [sha256sum bytes] is the digest that sha256sum(1) prints.  [net url]
    is what curl fetches from a URL that is not a file of the local
    mirror.  [unpacks bytes] tells whether [ar x deb] and the two
    [ostree commit] succeed on an archive with these bytes. *)
Variable sha256sum : string → string.
Variable net : string → option string.
Variable unpacks : string → bool.

Variables pwd builddir expected filename pool : string.

(** The URL of [$builddir/apt/mirror/], the directory of the local
    mirror. *)
Definition mirror_url : string :=
  "file://" +:+ pwd +:+ "/" +:+ builddir +:+ "/apt/mirror/".



(** [curl -L --fail -o $tmpdir/deb url] when the local mirror holds the
    files [disk], named by their paths below [$builddir/apt/mirror/]: a
    [file://] URL into the mirror is read from it.  curl decodes the
    [%xx] of the path of a URL: the name in the URL is the name of the file
    for paths without [%] ([plain_path]), below a working directory that
    is an absolute path. *)
Definition curl (disk : gmap string string) (url : string) : option string :=
  if startswith mirror_url url
  then disk !! drop (String.length mirror_url) url
  else net url.


End Script.

End Mirror.

(** * Properties *)

(** ** The parser *)

Section Parser.

Implicit Types (stream pre post : list string) (pkg : pkg_dict)
  (label : option string) (line : string).

(** The loop raises exactly when it does not reach the end of the stream. *)
Lemma loop_end_None stream pkg label :
  loop_end stream pkg label = None ↔ (parse_loop stream pkg label).2 ≠ None.
Proof.
  revert pkg label. induction stream as [|line rest IH]; intros pkg label; simpl.
  { naive_solver. }
  destruct (String.eqb (strip line) "").
  { rewrite IH. by destruct (decide (pkg = ∅)). }
  repeat match goal with
  | |- context [if ?b then _ else _] => destruct b
  | |- context [append_field ?p ?l ?s] => destruct (append_field p l s)
  | |- context [split_once ?a ?b] => destruct (split_once a b) as [[??]|]
  end; simpl; first [apply IH | split; [by intros _|done]].
Qed.

(** Reading [pre ++ post]: the loop runs on [pre], and when that does not
    raise, goes on with [post] from the state [pre] ended in. *)
Lemma parse_loop_app pre post pkg label :
  parse_loop (pre ++ post) pkg label =
    match loop_end pre pkg label with
    | Some (pkg', label') =>
        ((parse_loop pre pkg label).1 ++ (parse_loop post pkg' label').1,
         (parse_loop post pkg' label').2)
    | None => parse_loop pre pkg label
    end.
Proof.
  revert pkg label. induction pre as [|line rest IH]; intros pkg label; simpl.
  { by destruct (parse_loop post pkg label). }
  destruct (String.eqb (strip line) "").
  { rewrite IH. destruct (loop_end rest ∅ None) as [[pkg' label']|];
      by destruct (decide (pkg = ∅)). }
  repeat match goal with
  | |- context [if ?b then _ else _] => destruct b
  | |- context [append_field ?p ?l ?s] => destruct (append_field p l s)
  | |- context [split_once ?a ?b] => destruct (split_once a b) as [[??]|]
  end; try done; apply IH.
Qed.

(** After a blank line the loop is back in its initial state. *)
Lemma loop_end_blank pre line pkg label :
  blank line →
  loop_end (pre ++ [line]) pkg label = None ∨
  loop_end (pre ++ [line]) pkg label = Some (∅, None).
Proof.
  intros Hb. revert pkg label.
  induction pre as [|l rest IH]; intros pkg label; simpl.
  { rewrite Hb. simpl. by right. }
  repeat match goal with
  | |- context [if ?b then _ else _] => destruct b
  | |- context [append_field ?p ?l ?s] => destruct (append_field p l s)
  | |- context [split_once ?a ?b] => destruct (split_once a b) as [[??]|]
  end; try apply IH; by left.
Qed.

(** The first line of a paragraph that is a continuation line. *)
Lemma parse_loop_continuation_first line rest :
  ¬ blank line → startswith " " line = true →
  parse_loop (line :: rest) ∅ None = ([], Some (KeyError None)).
Proof.
  intros Hb Hsp. simpl.
  destruct (String.eqb_spec (strip line) ""); [done|].
  rewrite Hsp. by destruct (String.eqb line " .").
Qed.

(** The first line of a paragraph that has no [": "]. *)
Lemma parse_loop_no_separator_first line rest :
  ¬ blank line → startswith " " line = false → split_once ": " line = None →
  parse_loop (line :: rest) ∅ None = ([], Some ValueError).
Proof.
  intros Hb Hsp Hsep. simpl.
  destruct (String.eqb_spec (strip line) ""); [done|].
  rewrite Hsp, Hsep.
  destruct (String.eqb_spec line " ."); [by subst|done].
Qed.

(** C10. Every paragraph has to open with a [Label: value] line.  When the
    stream up to the start of a paragraph is read without an exception, and
    the first line of the paragraph that is not blank begins with a space or
    has no [": "], the iteration ends with an exception ([KeyError] for the
    continuation line, [ValueError] for the missing separator) and yields
    nothing beyond the records of the earlier paragraphs. *)
Theorem parse_packages_paragraph_must_open_with_field pre line rest ys :
  parse_packages pre = (ys, None) →
  (pre = [] ∨ ∃ pre' b, pre = pre' ++ [b] ∧ blank b) →
  ¬ blank line →
  (startswith " " line = true ∨ split_once ": " line = None) →
  parse_packages (pre ++ line :: rest) =
    (ys, Some (if startswith " " line then KeyError None else ValueError)).
Proof.
  unfold parse_packages. intros Hpre Hstart Hline Hbad.
  rewrite parse_loop_app.
  assert (loop_end pre ∅ None = Some (∅, None)) as ->.
  { destruct Hstart as [->|(pre' & b & -> & Hb)]; [done|].
    destruct (loop_end_blank pre' b ∅ None Hb) as [Hnone|]; [|done].
    apply loop_end_None in Hnone. by rewrite Hpre in Hnone. }
  rewrite Hpre.
  destruct (startswith " " line) eqn:Hsp.
  - rewrite parse_loop_continuation_first by done. simpl.
    by rewrite app_nil_r.
  - destruct Hbad as [?|Hsep]; [done|].
    rewrite parse_loop_no_separator_first by done. simpl.
    by rewrite app_nil_r.
Qed.

(** C10 on a second paragraph that opens with a continuation line. *)
Lemma parse_packages_paragraph_must_open_with_field_witness :
  parse_packages (["Package: a" +:+ nl; nl] ++ (" x" +:+ nl) :: ["y: z" +:+ nl])
  = ([{["Package" := "a"]}], Some (KeyError None)).
Proof.
  apply (parse_packages_paragraph_must_open_with_field
           ["Package: a" +:+ nl; nl] (" x" +:+ nl) ["y: z" +:+ nl]
           [{["Package" := "a"]}]).
  - vm_compute. reflexivity.
  - right. exists ["Package: a" +:+ nl], nl. split; reflexivity.
  - unfold blank. vm_compute. discriminate.
  - left. reflexivity.
Defined.

(** The same for a first line without separator: the error is a
    [ValueError]. *)
Example parse_packages_no_separator :
  parse_packages_file (text_of ["Package: a"; ""; "Package b"])
  = ([{["Package" := "a"]}], Some ValueError).
Proof. vm_compute. reflexivity. Qed.

(** C7. A paragraph ends at a blank line, but the records are yielded only
    there: when the stream ends, the loop is left without a last [yield], so
    a trailing paragraph that no blank line ends is dropped although it is
    not empty.  Here the lockfile holds two packages and the second is
    lost. *)
Theorem parse_packages_drops_trailing_paragraph :
  parse_packages_file (text_of ["Package: a"; ""; "Package: b"])
  = ([{["Package" := "a"]}], None)
  ∧ parse_packages_file (text_of ["Package: a"; ""; "Package: b"; ""])
    = ([{["Package" := "a"]}; {["Package" := "b"]}], None).
Proof. split; vm_compute; reflexivity. Qed.

(** X2. Nothing is ever yielded for the lines that follow the last blank
    line: from any state of the loop, a stream without blank line yields no
    record at all, however many fields it holds. *)
Theorem parse_loop_yields_at_blank_only stream pkg label :
  Forall (λ line, ¬ blank line) stream →
  (parse_loop stream pkg label).1 = [].
Proof.
  intros Hall. revert pkg label.
  induction Hall as [|line rest Hline _ IH]; intros pkg label; simpl; [done|].
  destruct (String.eqb_spec (strip line) ""); [done|].
  repeat match goal with
  | |- context [if ?b then _ else _] => destruct b
  | |- context [append_field ?p ?l ?s] => destruct (append_field p l s)
  | |- context [split_once ?a ?b] => destruct (split_once a b) as [[??]|]
  end; try done; apply IH.
Qed.

(** X2 on a lockfile of one paragraph that no blank line ends. *)
Lemma parse_loop_yields_at_blank_only_witness :
  (parse_loop ["Package: b" +:+ nl; "Filename: b.deb" +:+ nl] ∅ None).1 = [].
Proof.
  apply (parse_loop_yields_at_blank_only
           ["Package: b" +:+ nl; "Filename: b.deb" +:+ nl] ∅ None).
  repeat apply Forall_cons_2; try apply Forall_nil_2;
    unfold blank; vm_compute; discriminate.
Defined.

(** C4. The marker of an embedded blank line is not decoded.  The lines of
    a file keep their line feed, so the line [" ."] of a lockfile reaches
    the loop as [" ."] followed by a line feed, the comparison with [" ."]
    fails, and the line is taken as an ordinary continuation line: the value
    gets a line holding a dot.  Only a stream that hands over its lines
    without the line feed reaches the branch, which then appends two line
    feeds where one embedded blank line needs one. *)
Theorem parse_packages_blank_line_marker_kept :
  parse_packages_file (text_of ["Package: x"; "Description: a"; " ."; " b"; ""])
  = ([<["Description" := "a" +:+ nl +:+ "." +:+ nl +:+ "b"]>
        {["Package" := "x"]}], None)
  ∧ parse_packages ["Package: x"; "Description: a"; " ."; " b"; ""]
    = ([<["Description" := "a" +:+ nl +:+ nl +:+ nl +:+ "b"]>
          {["Package" := "x"]}], None).
Proof. split; vm_compute; reflexivity. Qed.

End Parser.

(** ** The requested packages *)

Section Lockfile.

Lemma sorted_Permutation (l : list string) : sorted l ≡ₚ l.
Proof. apply merge_sort_Permutation. Qed.

Lemma sorted_Sorted (l : list string) : Sorted String.le (sorted l).
Proof. apply (Sorted_merge_sort String.le). Qed.

(** [sorted] depends on the names requested, not on their order. *)
Lemma sorted_order_invariant (l l' : list string) :
  l ≡ₚ l' → sorted l = sorted l'.
Proof.
  intros Hperm. apply (Sorted_unique String.le); try apply sorted_Sorted.
  by rewrite !sorted_Permutation.
Qed.

(** C9. Two lists of package names that are permutations of each other give
    the same result and leave the same state behind, hence the same build
    statement: it is the [update_lockfile] statement whose [packages]
    variable is the concatenation of ["| " + name] over the names in sorted
    order. *)
Theorem generate_lockfile_order_invariant
    (lockfile : string) (packages packages' : list string)
    (architecture distribution archive_url : option string) (st : apt) :
  packages ≡ₚ packages' →
  generate_lockfile lockfile (Some packages) architecture distribution
    archive_url st
  = generate_lockfile lockfile (Some packages') architecture distribution
      archive_url st
  ∧ ∃ names statement,
      Sorted String.le names ∧ names ≡ₚ packages
      ∧ builds (generate_lockfile lockfile (Some packages') architecture
                  distribution archive_url st).2
        = builds st ++ [statement]
      ∧ b_rule statement = "update_lockfile"
      ∧ b_variables statement !! "packages" = Some (packages_filter names).
Proof.
  intros Hperm. unfold generate_lockfile. simpl.
  rewrite (sorted_order_invariant _ _ Hperm). split; [done|].
  eexists (sorted packages'), _. split; [apply sorted_Sorted|].
  split; [by rewrite sorted_Permutation|].
  split; [reflexivity|]. split; [done|]. by simplify_map_eq.
Qed.

(** C9 on three names in two orders. *)
Lemma generate_lockfile_order_invariant_witness :
  generate_lockfile "img.lock" (Some ["vim"; "bash"; "apt"]) None None None
    example_apt
  = generate_lockfile "img.lock" (Some ["apt"; "vim"; "bash"]) None None None
      example_apt
  ∧ ∃ names statement,
      Sorted String.le names ∧ names ≡ₚ ["vim"; "bash"; "apt"]
      ∧ builds (generate_lockfile "img.lock" (Some ["apt"; "vim"; "bash"])
                  None None None example_apt).2
        = builds example_apt ++ [statement]
      ∧ b_rule statement = "update_lockfile"
      ∧ b_variables statement !! "packages" = Some (packages_filter names).
Proof.
  apply (generate_lockfile_order_invariant "img.lock" ["vim"; "bash"; "apt"]
           ["apt"; "vim"; "bash"] None None None example_apt).
  change ([ "vim"; "bash"; "apt"]) with (["vim"; "bash"] ++ ["apt"]).
  apply Permutation_app_comm.
Defined.

(** The statement written for three names, whatever their order. *)
Example generate_lockfile_packages_variable :
  b_variables <$>
    builds (generate_lockfile "img.lock" (Some ["vim"; "bash"; "apt"])
              None None None example_apt).2
  = [<["packages" := "| apt| bash| vim"]>
       (<["architecture" := "amd64"]>
       (<["archive_url" := "http://archive.ubuntu.com/ubuntu"]>
       (<["distribution" := "xenial"]> (<["lockfile" := "img.lock"]> ∅))))].
Proof. vm_compute. reflexivity. Qed.

End Lockfile.

(** ** Strings *)

Section Strings.

Implicit Types s t old new : string.

Lemma app_String c s t : String c s +:+ t = String c (s +:+ t).
Proof. done. Qed.


(** The three slices of the digest are the digest. *)
Lemma take_slice_drop s : take 2 s +:+ slice 2 4 s +:+ drop 4 s = s.
Proof. by destruct s as [|a [|b [|c [|d s]]]]. Qed.

(** A pattern without slash that matches at the head of [s +:+ "/" ...]
    matches inside [s]. *)
Lemma startswith_app_slash old s t :
  occurs "/" old = false →
  startswith old (s +:+ String "/" t) = startswith old s.
Proof.
  revert s. induction old as [|a old IH]; intros s Hold; [by destruct s|].
  simpl in Hold. apply orb_false_elim in Hold as [Ha Hold].
  destruct s as [|c s]; simpl.
  - by rewrite Ha.
  - by rewrite IH.
Qed.

Lemma replace_go_app_slash old new s t :
  occurs "/" old = false → contains old s = false →
  replace_go old new 0 (s +:+ String "/" t)
  = s +:+ replace_go old new 0 (String "/" t).
Proof.
  intros Hold. induction s as [|c s IH]; intros Hs; [done|].
  simpl in Hs. apply orb_false_elim in Hs as [Hpre Hs].
  rewrite app_String. unfold replace_go at 1; fold replace_go.
  rewrite <-app_String, startswith_app_slash, Hpre by done.
  rewrite app_String. f_equal. by apply IH.
Qed.

(** Replacing the slashes of [s] neither adds nor removes a match of a
    pattern that has no slash and no underscore. *)
Lemma startswith_replace_slash old s :
  occurs "/" old = false → occurs "_" old = false →
  startswith old (replace_char "/" "_" s) = startswith old s.
Proof.
  revert s. induction old as [|a old IH]; intros s H1 H2; [by destruct s|].
  simpl in H1, H2.
  apply orb_false_elim in H1 as [Ha1 H1]. apply orb_false_elim in H2 as [Ha2 H2].
  destruct s as [|c s]; [done|]. simpl. rewrite IH by done.
  destruct (Ascii.eqb_spec c "/") as [->|Hc]; [|done].
  by rewrite Ha1, Ha2.
Qed.

Lemma contains_replace_slash old s :
  occurs "/" old = false → occurs "_" old = false →
  contains old (replace_char "/" "_" s) = contains old s.
Proof.
  intros H1 H2. induction s as [|c s IH]; [done|].
  change (contains old (replace_char "/" "_" (String c s))) with
    (startswith old (replace_char "/" "_" (String c s))
     || contains old (replace_char "/" "_" s)).
  by rewrite startswith_replace_slash, IH.
Qed.

(** The branch of the configured image, when the name of the lockfile does
    not hold the word that [build_image] replaces. *)
Lemma configured_branch lockfile :
  contains "unpacked" lockfile = false →
  replace "unpacked" "configured" (unpacked_branch lockfile)
  = "deb/images/" +:+ image_digest lockfile +:+ "/configured".
Proof.
  intros Hfree. unfold unpacked_branch, replace, image_digest.
  rewrite <-(contains_replace_slash "unpacked") in Hfree by done.
  do 11 (rewrite app_String; unfold replace_go at 1; fold replace_go;
         simpl startswith; cbv iota; rewrite <-?app_String).
  change ("" +:+ ?x) with x.
  by rewrite (replace_go_app_slash "unpacked" "configured") by done.
Qed.

End Strings.

(** ** Images *)

(** One step of evaluation of a computation of the monad. *)
Ltac run_M :=
  repeat progress
    (unfold mbind, M_bind, mret, M_ret, raise, ninja_build, ninja_write,
       get_deb_pool_mirrors, add_update_lockfile_rules, getitem,
       ostree_combine_build, deb_combine_meta_build, dpkg_base_build,
       dpkg_configure_build, download_deb_build, make_dpkg_info_build,
       update_lockfile_build;
     cbn).

Section Image.

Variables ostree_repo builddir : string.

Implicit Types (st : apt) (lockfile : string) (pkg : pkg_dict).

Local Arguments head_of : simpl never.
Local Arguments ostree_ref : simpl never.
Local Arguments image_digest : simpl never.
Local Arguments unpacked_branch : simpl never.

(** A sequence that returns: both of its parts returned. *)
Lemma bind_inr {A B : Type} (m : M A) (f : A → M B) st y st' :
  (m ≫= f) st = (inr y, st') →
  ∃ x st1, m st = (inr x, st1) ∧ f x st1 = (inr y, st').
Proof.
  unfold mbind, M_bind. destruct (m st) as [[e|x] st1]; [done|]. eauto.
Qed.

Lemma ostree_ref_head_of branch :
  ostree_ref ostree_repo (head_of ostree_repo branch)
  = {| filename := head_of ostree_repo branch; ref := branch |}.
Proof.
  unfold ostree_ref, head_of. f_equal.
  induction ostree_repo as [|c s IH]; [done|]. by rewrite !app_String.
Qed.

(** The statements after the [try] block never raise. *)
Lemma image_rules_returns lockfile base all_data all_info all_status
    all_available st :
  ∃ st',
    image_rules ostree_repo lockfile base all_data all_info all_status
      all_available st
    = (inr {| filename := head_of ostree_repo (unpacked_branch lockfile);
              ref := unpacked_branch lockfile |}, st')
    ∧ files st' = files st.
Proof.
  eexists. unfold image_rules. run_M. rewrite ostree_ref_head_of. done.
Qed.

(** The result of [image_from_lockfile], when it returns. *)
Lemma image_from_lockfile_ref lockfile architecture st r st' :
  image_from_lockfile ostree_repo builddir lockfile architecture st
  = (inr r, st') →
  r = {| filename := head_of ostree_repo (unpacked_branch lockfile);
         ref := unpacked_branch lockfile |}.
Proof.
  unfold image_from_lockfile. run_M.
  match goal with |- context [except_enoent ?b ?d ?s] =>
    destruct (except_enoent b d s) as [[e|[[[d1 d2] d3] d4]] st1] end.
  { done. }
  match goal with |- context [image_rules ?a ?b ?c ?d ?e ?f ?g ?s] =>
    destruct (image_rules_returns b c d e f g s) as (st2 & -> & _) end.
  by intros [= <- _].
Qed.

(** What [image_from_lockfile] does when [open] fails. *)
Lemma image_from_lockfile_open_fails lockfile architecture st errno :
  lockfile ≠ "_build/deb_pool_mirrors" →
  (ninja_open lockfile st).1 = inl (IOError errno) →
  if decide (errno = ENOENT) then
    ∃ st',
      image_from_lockfile ostree_repo builddir lockfile architecture st
      = (inr {| filename := head_of ostree_repo (unpacked_branch lockfile);
                ref := unpacked_branch lockfile |}, st')
      ∧ builds st'
        = builds st ++ empty_image_statements ostree_repo lockfile
                         (default "amd64" architecture)
  else
    (image_from_lockfile ostree_repo builddir lockfile architecture st).1
    = inl (IOError errno).
Proof.
  intros Hne Hopen.
  assert ((ninja_open lockfile
             (Apt (builds st ++
                   [Build [head_of ostree_repo
                             ("deb/dpkg-base/" +:+ default "amd64" architecture)]
                      "dpkg_base" [] [] (order_only_config ostree_repo)
                      (<["architecture" := default "amd64" architecture]> ∅)])
                (<["_build/deb_pool_mirrors" :=
                     File (join "" ((λ x, x +:+ nl) <$> deb_pool_mirrors st))]>
                   (files st))
                (update_lockfile_rules st) (deb_pool_mirrors st))).1
          = inl (IOError errno)) as Hopen'.
  { revert Hopen. unfold ninja_open. simpl. rewrite lookup_insert_ne by done.
    by destruct (files st !! lockfile) as [[]|]. }
  unfold image_from_lockfile, lockfile_rules, except_enoent. run_M.
  match goal with |- context [ninja_open lockfile ?s] =>
    destruct (ninja_open lockfile s) as [res st1] eqn:Hres end.
  assert (st1 = {| builds := builds st ++ [Build [head_of ostree_repo
                             ("deb/dpkg-base/" +:+ default "amd64" architecture)]
                      "dpkg_base" [] [] (order_only_config ostree_repo)
                      (<["architecture" := default "amd64" architecture]> ∅)];
          files := (<["_build/deb_pool_mirrors" :=
                     File (join "" ((λ x, x +:+ nl) <$> deb_pool_mirrors st))]>
                   (files st)); update_lockfile_rules := update_lockfile_rules st;
          deb_pool_mirrors := deb_pool_mirrors st |}) as ->.
  { revert Hres. unfold ninja_open. simpl. 
    repeat case_match; by intros [= _ <-]. }
  simpl in Hopen'. subst res. cbn.
  destruct (decide (errno = ENOENT)) as [->|Herr].
  - rewrite decide_False by naive_solver. cbn.
    unfold image_rules. run_M. eexists. rewrite ostree_ref_head_of. split; [reflexivity|].
    cbn. rewrite <-!app_assoc. done.
  - by rewrite decide_True.
Qed.


Lemma substring_take n s : String.substring 0 n s = take n s.
Proof. revert s. induction n; intros [|c s]; simpl; by f_equal. Qed.

Lemma substring_drop n m s :
  String.substring n m s = String.substring 0 m (drop n s).
Proof.
  revert s m. induction n as [|n IH]; intros [|c s] m; simpl; try done.
  by destruct m.
Qed.

Lemma take_all s : take (String.length s) s = s.
Proof. induction s; simpl; by f_equal. Qed.

Lemma length_drop n s : String.length (drop n s) = String.length s - n.
Proof. revert s. induction n; intros [|c s]; simpl; auto. Qed.

Lemma aptly_pool_filename_stated D file :
  aptly_pool_filename D file = stated_pool_path D (basename file).
Proof.
  unfold aptly_pool_filename, stated_pool_path, slice.
  rewrite (substring_drop 2), (substring_drop 4), !substring_take.
  by rewrite <-(length_drop 4), take_all.
Qed.

Lemma replace_plus_tilde s :
  replace_char "~" "_" (replace_char "+" "_" s) = underscored s.
Proof.
  induction s as [|c s IH]; [done|]. simpl. rewrite IH. f_equal.
  destruct (Ascii.eqb_spec c "+") as [->|Hp]; [done|].
  destruct (Ascii.eqb_spec c "~") as [->|Ht]; [done|].
  by rewrite bool_decide_false by (by intros [|]).
Qed.

(** C2, as amended.  For a record with digest [D] and [Filename] field [F],
    the first statement written is the [download_deb] one; it gets as pool
    path [D[0:2]/D[2:4]/D[4:]_f] with [f] the base name of [F] after
    [urllib.unquote], and as [ref_base] the string ["deb/pool/"] followed by
    that pool path with every [+] and every [~] replaced by [_]; the pool
    path variable keeps the original characters. *)
Theorem package_pool_path_and_ref_base pkg D F st :
  pkg !! "SHA256" = Some D → pkg !! "Filename" = Some F →
  ∃ download rest,
    builds (package_rules ostree_repo builddir pkg st).2
    = builds st ++ download :: rest
    ∧ b_rule download = "download_deb"
    ∧ b_variables download !! "sha256sum" = Some D
    ∧ b_variables download !! "aptly_pool_filename"
      = Some (stated_pool_path D (basename (unquote F)))
    ∧ b_variables download !! "ref_base"
      = Some ("deb/pool/"
              +:+ underscored (stated_pool_path D (basename (unquote F)))).
Proof.
  intros HD HF. unfold package_rules. run_M.
  rewrite HF. run_M. rewrite HD. run_M.
  rewrite <-aptly_pool_filename_stated, <-replace_plus_tilde.
  fold (ref_base (aptly_pool_filename D (unquote F))).
  destruct (pkg !! "Package") as [P|]; run_M.
  - rewrite <-app_assoc. eexists _, [_]. split; [reflexivity|].
    by simplify_map_eq.
  - eexists _, []. split; [reflexivity|]. by simplify_map_eq.
Qed.

(** C6. When [open] fails on the lockfile with [ENOENT], the method does
    not raise: it returns the ref of the unpacked image after writing the
    statements of an image without packages, the phony target of the image
    among them.  When [open] fails with another error number, that
    [IOError] reaches the caller.  (The lockfile is not the list of mirrors,
    which the method itself writes before it opens the lockfile.) *)
Theorem image_from_lockfile_missing_lockfile lockfile architecture st errno :
  lockfile ≠ "_build/deb_pool_mirrors" →
  (ninja_open lockfile st).1 = inl (IOError errno) →
  (errno = ENOENT →
   ∃ st',
     image_from_lockfile ostree_repo builddir lockfile architecture st
     = (inr {| filename := head_of ostree_repo (unpacked_branch lockfile);
               ref := unpacked_branch lockfile |}, st')
     ∧ builds st'
       = builds st ++ empty_image_statements ostree_repo lockfile
                        (default "amd64" architecture))
  ∧ (errno ≠ ENOENT →
     (image_from_lockfile ostree_repo builddir lockfile architecture st).1
     = inl (IOError errno)).
Proof.
  intros Hne Hopen.
  pose proof (image_from_lockfile_open_fails lockfile architecture st errno
                Hne Hopen) as H.
  split; intros Herr.
  - by rewrite decide_True in H.
  - by rewrite decide_False in H.
Qed.

(** The branch of the configured image: the one of the unpacked image
    after the replacement. *)
Lemma build_image_ref lockfile packages architecture distribution
    archive_url st r st' :
  build_image ostree_repo builddir lockfile packages architecture distribution
    archive_url st = (inr r, st') →
  ∃ st0 st1,
    generate_lockfile lockfile packages architecture distribution archive_url
      st = (inr lockfile, st0)
    ∧ image_from_lockfile ostree_repo builddir lockfile architecture st0
      = (inr {| filename := head_of ostree_repo (unpacked_branch lockfile);
                ref := unpacked_branch lockfile |}, st1)
    ∧ ref r = replace "unpacked" "configured" (unpacked_branch lockfile).
Proof.
  unfold build_image, build_image_unpacked. intros Hrun.
  apply bind_inr in Hrun as (unpacked & st1 & Hunpacked & Hrun).
  apply bind_inr in Hunpacked as (l & st0 & Hgen & Himg).
  apply image_from_lockfile_ref in Himg as Hu. subst unpacked.
  assert (l = lockfile) as ->.
  { revert Hgen. unfold generate_lockfile. run_M. by intros [= <- _]. }
  revert Hrun. run_M. rewrite ostree_ref_head_of. intros [= <- _].
  by eexists _, _.
Qed.

(** C5, as amended.  The unpacked image of a lockfile is published under
    [deb/images/<key>/unpacked], where the key is the path of the lockfile
    with its slashes replaced by underscores: it is computed from the name
    of the lockfile and not from the packages it lists.  The configured
    image is published under the same branch with [unpacked] replaced by
    [configured] wherever it occurs, which is [deb/images/<key>/configured]
    when the path of the lockfile does not contain [unpacked]. *)
Theorem image_refs_named_after_lockfile lockfile packages architecture
    distribution archive_url st r st' :
  build_image ostree_repo builddir lockfile packages architecture distribution
    archive_url st = (inr r, st') →
  ∃ unpacked st1,
    image_from_lockfile ostree_repo builddir lockfile architecture
      (generate_lockfile lockfile packages architecture distribution
         archive_url st).2
    = (inr unpacked, st1)
    ∧ ref unpacked = "deb/images/" +:+ image_digest lockfile +:+ "/unpacked"
    ∧ ref r = replace "unpacked" "configured" (ref unpacked)
    ∧ (contains "unpacked" lockfile = false →
       ref r = "deb/images/" +:+ image_digest lockfile +:+ "/configured").
Proof.
  intros (st0 & st1 & Hgen & Himg & Href)%build_image_ref.
  rewrite Hgen. simpl snd. eexists _, st1. split; [exact Himg|].
  split; [done|]. split; [done|].
  intros Hfree. rewrite Href. by apply configured_branch.
Qed.

(** X3. Two calls of [build_image] for the same lockfile path give the same
    ref, whatever the state of the generator, the files on disk and the
    packages asked for. *)
Corollary image_refs_depend_on_path_only lockfile packages1 packages2
    architecture1 architecture2 distribution1 distribution2 archive_url1
    archive_url2 st1 st2 r1 r2 st1' st2' :
  build_image ostree_repo builddir lockfile packages1 architecture1
    distribution1 archive_url1 st1 = (inr r1, st1') →
  build_image ostree_repo builddir lockfile packages2 architecture2
    distribution2 archive_url2 st2 = (inr r2, st2') →
  ref r1 = ref r2.
Proof.
  intros (? & ? & _ & _ & ->)%build_image_ref.
  by intros (? & ? & _ & _ & ->)%build_image_ref.
Qed.

End Image.

Section ImageExamples.

Lemma example_lockfile_parsed :
  parse_packages_file example_lockfile = ([example_record], None).
Proof. vm_compute. reflexivity. Qed.

(** The amended C2 on the record of the example lockfile. *)
Lemma package_pool_path_and_ref_base_witness :
  ∃ download rest,
    builds (package_rules "repo" "_build" example_record example_apt).2
    = builds example_apt ++ download :: rest
    ∧ b_rule download = "download_deb"
    ∧ b_variables download !! "sha256sum" = Some example_sha256
    ∧ b_variables download !! "aptly_pool_filename"
      = Some (stated_pool_path example_sha256
                (basename (unquote example_filename)))
    ∧ b_variables download !! "ref_base"
      = Some ("deb/pool/"
              +:+ underscored (stated_pool_path example_sha256
                                 (basename (unquote example_filename)))).
Proof.
  apply (package_pool_path_and_ref_base "repo" "_build" example_record
           example_sha256 example_filename example_apt);
    reflexivity.
Defined.

(** C2 as stated fails on the record of the example lockfile.  The base
    name of its [Filename] field is percent-encoded, and the pool path is
    built from the decoded name; and [ref_base] is not the pool path with
    the two characters replaced, but that string behind ["deb/pool/"]. *)
Lemma pool_path_as_stated_counterexample :
  statement_variable "download_deb" "aptly_pool_filename"
    (image_from_lockfile "repo" "_build" "a.lock" None example_apt).2
  = Some "e3/b0/c44298fc1c149afbf4c8996fb92427ae41e4649b934ca495991b7852b855_g++_5.3.1-1ubuntu1~16.04_amd64.deb"
  ∧ stated_pool_path example_sha256 (basename example_filename)
    = "e3/b0/c44298fc1c149afbf4c8996fb92427ae41e4649b934ca495991b7852b855_g%2B%2B_5.3.1-1ubuntu1~16.04_amd64.deb"
  ∧ statement_variable "download_deb" "ref_base"
      (image_from_lockfile "repo" "_build" "a.lock" None example_apt).2
    = Some "deb/pool/e3/b0/c44298fc1c149afbf4c8996fb92427ae41e4649b934ca495991b7852b855_g___5.3.1-1ubuntu1_16.04_amd64.deb"
  ∧ underscored "e3/b0/c44298fc1c149afbf4c8996fb92427ae41e4649b934ca495991b7852b855_g++_5.3.1-1ubuntu1~16.04_amd64.deb"
    = "e3/b0/c44298fc1c149afbf4c8996fb92427ae41e4649b934ca495991b7852b855_g___5.3.1-1ubuntu1_16.04_amd64.deb"
  ∧ statement_variable "download_deb" "aptly_pool_filename"
      (image_from_lockfile "repo" "_build" "a.lock" None example_apt).2
    ≠ Some (stated_pool_path example_sha256 (basename example_filename))
  ∧ statement_variable "download_deb" "ref_base"
      (image_from_lockfile "repo" "_build" "a.lock" None example_apt).2
    ≠ (underscored <$>
         statement_variable "download_deb" "aptly_pool_filename"
           (image_from_lockfile "repo" "_build" "a.lock" None example_apt).2).
Proof. repeat split; vm_compute; (reflexivity || discriminate). Qed.

(** C6 on a lockfile that does not exist. *)
Lemma image_from_lockfile_missing_lockfile_witness :
  ∃ st',
    image_from_lockfile "repo" "_build" "missing.lock" None example_apt
    = (inr {| filename := head_of "repo" (unpacked_branch "missing.lock");
              ref := unpacked_branch "missing.lock" |}, st')
    ∧ builds st'
      = builds example_apt
        ++ empty_image_statements "repo" "missing.lock" (default "amd64" None).
Proof.
  apply (proj1 (image_from_lockfile_missing_lockfile "repo" "_build"
                  "missing.lock" None example_apt ENOENT
                  ltac:(discriminate) ltac:(reflexivity)) eq_refl).
Defined.

(** The other error numbers: a lockfile that may not be read. *)
Example image_from_lockfile_unreadable :
  (image_from_lockfile "repo" "_build" "secret.lock" None example_apt).1
  = inl (IOError 13).
Proof. vm_compute. reflexivity. Qed.

(** The statements of an image without packages, for a lockfile in a
    directory. *)
Example empty_image_statements_example :
  (λ b, (b_rule b, b_outputs b, b_inputs b))
    <$> empty_image_statements "repo" "images/base.lock" "amd64"
  = [("dpkg_base", ["repo/refs/heads/deb/dpkg-base/amd64"], []);
     ("ostree_combine",
      ["repo/refs/heads/deb/images/images_base.lock/data_combined"], []);
     ("ostree_combine",
      ["repo/refs/heads/deb/images/images_base.lock/info_combined"], []);
     ("deb_combine_meta",
      ["repo/refs/heads/deb/images/images_base.lock/status"], []);
     ("deb_combine_meta",
      ["repo/refs/heads/deb/images/images_base.lock/available"], []);
     ("ostree_combine",
      ["repo/refs/heads/deb/images/images_base.lock/unpacked"],
      ["repo/refs/heads/deb/dpkg-base/amd64";
       "repo/refs/heads/deb/images/images_base.lock/info_combined";
       "repo/refs/heads/deb/images/images_base.lock/status";
       "repo/refs/heads/deb/images/images_base.lock/available";
       "repo/refs/heads/deb/images/images_base.lock/data_combined"]);
     ("phony", ["unpacked-image-for-images/base.lock"],
      ["repo/refs/heads/deb/images/images_base.lock/unpacked"])].
Proof. vm_compute. reflexivity. Qed.

(** The amended C5 on the first lockfile of the example. *)
Lemma image_refs_named_after_lockfile_witness :
  ∃ unpacked st1,
    image_from_lockfile "repo" "_build" "a.lock" None
      (generate_lockfile "a.lock" (Some ["g++"]) None None None
         example_apt).2
    = (inr unpacked, st1)
    ∧ ref unpacked = "deb/images/" +:+ image_digest "a.lock" +:+ "/unpacked"
    ∧ "deb/images/a.lock/configured"
      = replace "unpacked" "configured" (ref unpacked)
    ∧ (contains "unpacked" "a.lock" = false →
       "deb/images/a.lock/configured"
       = "deb/images/" +:+ image_digest "a.lock" +:+ "/configured").
Proof.
  apply (image_refs_named_after_lockfile "repo" "_build" "a.lock"
           (Some ["g++"]) None None None example_apt
           {| filename := "repo/refs/heads/deb/images/a.lock/configured";
              ref := "deb/images/a.lock/configured" |}
           (build_image "repo" "_build" "a.lock" (Some ["g++"]) None None None
              example_apt).2).
  vm_compute. reflexivity.
Defined.

(** X3 on a lockfile that lists a package in one directory and does not
    exist in the other. *)
Lemma image_refs_depend_on_path_only_witness :
  returned_ref (build_image "repo" "_build" "a.lock" (Some ["g++"]) None None
                  None example_apt)
  = returned_ref (build_image "repo" "_build" "a.lock" (Some ["vim"])
                    (Some "arm64") None None (Apt [] ∅ ∅ [])).
Proof.
  vm_compute.
  refine (f_equal Some
    (image_refs_depend_on_path_only "repo" "_build" "a.lock"
       (Some ["g++"]) (Some ["vim"]) None (Some "arm64") None None None
       None example_apt (Apt [] ∅ ∅ [])
       {| filename := "repo/refs/heads/deb/images/a.lock/configured";
          ref := "deb/images/a.lock/configured" |}
       {| filename := "repo/refs/heads/deb/images/a.lock/configured";
          ref := "deb/images/a.lock/configured" |}
       (build_image "repo" "_build" "a.lock" (Some ["g++"]) None None
          None example_apt).2
       (build_image "repo" "_build" "a.lock" (Some ["vim"])
          (Some "arm64") None None (Apt [] ∅ ∅ [])).2 _ _));
    vm_compute; reflexivity.
Defined.

(** C5 as stated fails: the two lockfiles of the example are the same file
    under two names, so they describe the same packages, and their images
    are published under different keys. *)
Lemma image_key_as_stated_counterexample :
  files example_apt !! "a.lock" = files example_apt !! "b.lock"
  ∧ (build_image_unpacked "repo" "_build" "a.lock" (Some ["g++"]) None None
       None example_apt).1
    = inr {| filename := "repo/refs/heads/deb/images/a.lock/unpacked";
             ref := "deb/images/a.lock/unpacked" |}
  ∧ (build_image_unpacked "repo" "_build" "b.lock" (Some ["g++"]) None None
       None example_apt).1
    = inr {| filename := "repo/refs/heads/deb/images/b.lock/unpacked";
             ref := "deb/images/b.lock/unpacked" |}
  ∧ (build_image "repo" "_build" "a.lock" (Some ["g++"]) None None None
       example_apt).1
    = inr {| filename := "repo/refs/heads/deb/images/a.lock/configured";
             ref := "deb/images/a.lock/configured" |}
  ∧ (build_image "repo" "_build" "b.lock" (Some ["g++"]) None None None
       example_apt).1
    = inr {| filename := "repo/refs/heads/deb/images/b.lock/configured";
             ref := "deb/images/b.lock/configured" |}.
Proof. repeat split; vm_compute; reflexivity. Qed.

(** A lockfile whose name holds the word: the configured image is not
    published under the key of the unpacked one. *)
Example configured_branch_of_unpacked_lock :
  (build_image "repo" "_build" "unpacked.lock" None None None None
     example_apt).1
  = inr {| filename := "repo/refs/heads/deb/images/configured.lock/configured";
           ref := "deb/images/configured.lock/configured" |}.
Proof. vm_compute. reflexivity. Qed.

End ImageExamples.

(** ** Combining trees *)

Section Combining.

Import Combine.

Implicit Types (t u : tree) (inputs : list tree) (path : string).

(** The test of [combine]: the two trees have no path in common. *)
Lemma no_common_path t u :
  dom t ∩ dom u = (∅ : gset string) ↔ t ##ₘ u.
Proof. by rewrite map_disjoint_dom, disjoint_intersection_L. Qed.

(** The inputs of a combination that succeeds do not overlap, and the
    result is their union. *)
Lemma combine_Combined inputs u :
  combine inputs = Combined u → map_disjoint_list inputs ∧ u = ⋃ inputs.
Proof.
  revert u. induction inputs as [|t rest IH]; intros u; simpl.
  { intros Hu. injection Hu as <-. split; [|done]. by intros [|?] [|?]. }
  destruct (combine rest) as [|v]; [done|].
  case_decide as Hdisj; [|done]. intros Hu. injection Hu as <-.
  destruct (IH v eq_refl) as [Hrest ->]. split; [|done].
  apply map_disjoint_list_cons. split; [|done].
  apply no_common_path in Hdisj.
  apply map_disjoint_union_list_r in Hdisj.
  eapply Forall_impl; [done|]. by intros t' ?.
Qed.

(** Inputs without a common path are combined into their union. *)
Lemma combine_disjoint inputs :
  map_disjoint_list inputs → combine inputs = Combined (⋃ inputs).
Proof.
  induction inputs as [|t rest IH]; [done|].
  intros [Hall Hrest]%map_disjoint_list_cons. simpl.
  rewrite IH by done. rewrite decide_True; [done|].
  apply no_common_path, map_disjoint_union_list_r.
  eapply Forall_impl; [done|]. by intros t' ?.
Qed.

(** Two inputs with a common path make the combination fail. *)
Lemma combine_conflict inputs i j ti tj path :
  i ≠ j → inputs !! i = Some ti → inputs !! j = Some tj →
  is_Some (ti !! path) → is_Some (tj !! path) →
  combine inputs = MergeConflictError.
Proof.
  intros Hij Hi Hj [x Hx] [y Hy].
  destruct (combine inputs) as [|u] eqn:Hu; [done|].
  apply combine_Combined in Hu as [Hdisj _].
  specialize (Hdisj i j ti tj Hij Hi Hj).
  by destruct (map_disjoint_spec ti tj) as [H _]; destruct (H Hdisj path x y).
Qed.

(** The order of the inputs does not matter, whether they overlap or not. *)
Lemma combine_Permutation inputs inputs' :
  inputs ≡ₚ inputs' → combine inputs = combine inputs'.
Proof.
  intros Hperm.
  destruct (combine inputs) as [|u] eqn:Hu, (combine inputs') as [|u'] eqn:Hu';
    [done|..].
  - apply combine_Combined in Hu' as [Hdisj _].
    rewrite <-Hperm in Hdisj. by rewrite (combine_disjoint _ Hdisj) in Hu.
  - apply combine_Combined in Hu as [Hdisj _].
    rewrite Hperm in Hdisj. by rewrite (combine_disjoint _ Hdisj) in Hu'.
  - apply combine_Combined in Hu as [Hdisj ->].
    apply combine_Combined in Hu' as [_ ->].
    f_equal. by apply map_union_list_Permutation.
Qed.

(** C1. Two input trees that hold the same path make the combination fail
    with a conflict, wherever they stand in the list; inputs whose sets of
    paths are pairwise disjoint are combined into their union, and the
    result does not depend on the order of the inputs. *)
Theorem combine_conflict_or_union inputs :
  (∀ i j ti tj path,
     i ≠ j → inputs !! i = Some ti → inputs !! j = Some tj →
     is_Some (ti !! path) → is_Some (tj !! path) →
     combine inputs = MergeConflictError)
  ∧ (map_disjoint_list inputs →
     combine inputs = Combined (⋃ inputs)
     ∧ ∀ inputs', inputs' ≡ₚ inputs → combine inputs' = combine inputs).
Proof.
  split; [apply combine_conflict|]. intros Hdisj.
  split; [by apply combine_disjoint|].
  intros inputs' Hperm. by apply combine_Permutation.
Qed.

(** C1 on the trees of the specification's example. *)
Lemma combine_conflict_or_union_witness :
  (combine [{["a" := "x"]}; {["b" := "y"]}]
   = Combined (⋃ [{["a" := "x"]}; {["b" := "y"]}])
   ∧ combine [{["b" := "y"]}; {["a" := "x"]}]
     = combine [{["a" := "x"]}; {["b" := "y"]}])
  ∧ combine [{["a" := "x"]}; {["a" := "y"]}] = MergeConflictError.
Proof.
  split.
  - destruct (combine_conflict_or_union [{["a" := "x"]}; {["b" := "y"]}])
      as [_ Hunion].
    destruct Hunion as [Hu Hp].
    + intros [|[|?]] [|[|?]] t u Hij Ht Hu; try done;
        injection Ht as <-; injection Hu as <-;
        by apply map_disjoint_singleton_l.
    + split; [exact Hu|]. apply Hp, perm_swap.
  - apply (proj1 (combine_conflict_or_union [{["a" := "x"]}; {["a" := "y"]}])
             0 1 {["a" := "x"]} {["a" := "y"]} "a"); by eauto.
Defined.

(** The example of the specification, evaluated. *)
Example combine_example :
  combine [{["a" := "x"]}; {["b" := "y"]}]
  = Combined (<["a" := "x"]> {["b" := "y"]})
  ∧ combine [{["b" := "y"]}; {["a" := "x"]}]
    = Combined (<["a" := "x"]> {["b" := "y"]})
  ∧ combine [{["a" := "x"]}; {["a" := "y"]}] = MergeConflictError.
Proof. vm_compute. done. Qed.

End Combining.

(** ** Fetching an archive *)

Section Fetching.

Import DownloadDeb.

Variable sha256sum : string → string.
Variable curl : string → option string.
Variables pwd builddir expected filename pool : string.

Abbreviation download := (download sha256sum curl expected).
Abbreviation try_sources := (try_sources sha256sum curl expected).
Abbreviation mirrors_loop :=
  (mirrors_loop sha256sum curl pwd builddir expected filename pool).
Abbreviation fetch :=
  (fetch sha256sum curl pwd builddir expected filename pool).
Abbreviation sources := (sources pwd builddir filename pool).
Abbreviation matches := (matches sha256sum curl expected).
Abbreviation actual_sha256 := (actual_sha256 sha256sum).
Abbreviation last_written := (last_written curl).

Lemma sources_cons mirror rest :
  sources (mirror :: rest)
  = cache_url pwd builddir filename :: (mirror +:+ "/" +:+ filename)
      :: (mirror +:+ "/" +:+ pool) :: sources rest.
Proof. done. Qed.

Lemma try_sources_cons url rest deb :
  try_sources (url :: rest) deb
  = if (download url deb).1 then (true, (download url deb).2)
    else try_sources rest (download url deb).2.
Proof. done. Qed.

(** The loop over the mirrors calls [download] on the sources in order. *)
Lemma mirrors_loop_sources mirrors deb :
  mirrors_loop mirrors deb = (try_sources (sources mirrors) deb).2.
Proof.
  revert deb. induction mirrors as [|mirror rest IH]; intros deb; [done|].
  rewrite sources_cons, !try_sources_cons.
  change (mirrors_loop (mirror :: rest) deb) with
    (let r1 := download (cache_url pwd builddir filename) deb in
     if r1.1 then r1.2 else
     let r2 := download (mirror +:+ "/" +:+ filename) r1.2 in
     if r2.1 then r2.2 else
     let r3 := download (mirror +:+ "/" +:+ pool) r2.2 in
     if r3.1 then r3.2 else mirrors_loop rest r3.2).
  cbv zeta.
  destruct (download (cache_url pwd builddir filename) deb).1; [done|].
  destruct (download (mirror +:+ "/" +:+ filename) _).1; [done|].
  destruct (download (mirror +:+ "/" +:+ pool) _).1; [done|].
  apply IH.
Qed.

Lemma download_no_match url deb :
  actual_sha256 deb ≠ expected → ¬ matches url →
  (download url deb).1 = false ∧ actual_sha256 (download url deb).2 ≠ expected.
Proof.
  intros Hdeb Hurl. unfold DownloadDeb.download. simpl.
  destruct (curl url) as [bytes|] eqn:Hcurl.
  - assert (sha256sum bytes ≠ expected) as Hne.
    { intros Heq. apply Hurl. by exists bytes. }
    split; [|done]. by apply String.eqb_neq.
  - split; [|done]. by apply String.eqb_neq.
Qed.

Lemma download_match url deb bytes :
  curl url = Some bytes → sha256sum bytes = expected →
  download url deb = (true, Some bytes).
Proof.
  intros Hcurl Hsum. unfold DownloadDeb.download. rewrite Hcurl. simpl.
  by rewrite Hsum, String.eqb_refl.
Qed.

Lemma try_sources_first_match pre url post bytes deb :
  actual_sha256 deb ≠ expected → Forall (λ v, ¬ matches v) pre →
  curl url = Some bytes → sha256sum bytes = expected →
  try_sources (pre ++ url :: post) deb = (true, Some bytes).
Proof.
  intros Hdeb Hpre Hcurl Hsum. revert deb Hdeb.
  induction Hpre as [|v pre Hv _ IH]; intros deb Hdeb.
  - change ([] ++ url :: post) with (url :: post).
    by rewrite try_sources_cons, (download_match url deb bytes).
  - change ((v :: pre) ++ url :: post) with (v :: (pre ++ url :: post)).
    rewrite try_sources_cons.
    destruct (download_no_match v deb Hdeb Hv) as [-> Hdeb']. by apply IH.
Qed.

Lemma try_sources_nothing urls deb :
  actual_sha256 deb ≠ expected → Forall (λ v, curl v = None) urls →
  try_sources urls deb = (false, deb).
Proof.
  intros Hdeb Hurls. induction Hurls as [|v urls Hv _ IH]; [done|].
  rewrite try_sources_cons. unfold DownloadDeb.download. rewrite Hv. simpl.
  by apply String.eqb_neq in Hdeb as ->.
Qed.

(** C3, as amended.  The working directory, the variables of the
    statement and the mirrors are words of the shell, which the script
    reads as they are.  For each mirror of the list in turn the script tries
    the local cache under the file name, the file name on the mirror and the
    pool path on the mirror ([sources]); when [$tmpdir/deb] does not already
    hold the bytes asked for, the first of these sources that yields bytes
    with the digest of the record ends the loop and its bytes are what the
    script unpacks; and from an empty [$tmpdir], when no source yields any
    bytes, the script exits with status 1. *)
Theorem fetch_first_verified_source mirrors deb0 :
  shell_words (pwd :: builddir :: expected :: filename :: pool :: mirrors)
  = true →
  actual_sha256 deb0 ≠ expected →
  (∀ pre url post bytes,
     sources mirrors = pre ++ url :: post →
     Forall (λ v, ¬ matches v) pre →
     curl url = Some bytes → sha256sum bytes = expected →
     fetch mirrors deb0 = Unpacks bytes)
  ∧ (deb0 = None → Forall (λ v, curl v = None) (sources mirrors) →
     fetch mirrors deb0 = Exit1).
Proof.
  intros _ Hdeb. unfold DownloadDeb.fetch. rewrite mirrors_loop_sources. split.
  - intros pre url post bytes -> Hpre Hcurl Hsum.
    by rewrite (try_sources_first_match pre url post bytes).
  - intros -> Hnone. by rewrite try_sources_nothing.
Qed.

Lemma try_sources_exhausted urls deb :
  actual_sha256 deb ≠ expected → Forall (λ v, ¬ matches v) urls →
  try_sources urls deb = (false, last_written urls deb).
Proof.
  intros Hdeb Hurls. revert deb Hdeb.
  induction Hurls as [|v urls Hv _ IH]; intros deb Hdeb; [done|].
  rewrite try_sources_cons.
  destruct (download_no_match v deb Hdeb Hv) as [-> Hdeb']. by rewrite IH.
Qed.

(** X1. The working directory, the variables of the statement and the
    mirrors are words of the shell.  When no source yields bytes of the
    digest asked for, the script exits with status 1 only if curl never
    wrote [$tmpdir/deb]: the test after the loop is on the existence of the
    file, not on the result of the comparison, so otherwise the script goes
    on to unpack the bytes that the last successful transfer left there,
    although their digest is not the one of the record. *)
Theorem fetch_exhausted mirrors deb0 :
  shell_words (pwd :: builddir :: expected :: filename :: pool :: mirrors)
  = true →
  actual_sha256 deb0 ≠ expected →
  Forall (λ v, ¬ matches v) (sources mirrors) →
  fetch mirrors deb0
  = match last_written (sources mirrors) deb0 with
    | Some bytes => Unpacks bytes
    | None => Exit1
    end.
Proof.
  intros _ Hdeb Hnone. unfold DownloadDeb.fetch.
  by rewrite mirrors_loop_sources, try_sources_exhausted.
Qed.

End Fetching.

Section FetchingExamples.

Import DownloadDeb.

Abbreviation fetch_hello curl mirrors :=
  (fetch SHA256.hexdigest curl "/src" "_build" hello_sha256 hello_filename
     hello_pool mirrors None).

(** The test vectors of the standard for the empty message and for
    ["abc"]. *)
Example hexdigest_test_vectors :
  SHA256.hexdigest ""
  = "e3b0c44298fc1c149afbf4c8996fb92427ae41e4649b934ca495991b7852b855"
  ∧ SHA256.hexdigest "abc"
    = "ba7816bf8f01cfea414140de5dae2223b00361a396177a9cb410ff61f20015ad".
Proof. split; vm_compute; reflexivity. Qed.


Lemma hello_pool_path :
  aptly_pool_filename hello_sha256 hello_filename = hello_pool.
Proof. vm_compute. reflexivity. Qed.

(** The amended C3 with two mirrors, the first of which serves a corrupt
    file: the loop goes through the three sources of the first mirror and
    the cache again before it finds the archive on the second mirror. *)
Lemma fetch_first_verified_source_witness :
  fetch_hello curl_second_mirror [mirror_a; mirror_b] = Unpacks hello_deb.
Proof.
  refine (proj1 (fetch_first_verified_source SHA256.hexdigest
                   curl_second_mirror "/src" "_build" hello_sha256
                   hello_filename hello_pool [mirror_a; mirror_b] None _ _)
            [cache_url "/src" "_build" hello_filename;
             mirror_a +:+ "/" +:+ hello_filename;
             mirror_a +:+ "/" +:+ hello_pool;
             cache_url "/src" "_build" hello_filename]
            (mirror_b +:+ "/" +:+ hello_filename)
            [mirror_b +:+ "/" +:+ hello_pool] hello_deb _ _ _ _).
  - vm_compute. reflexivity.
  - discriminate.
  - reflexivity.
  - repeat apply Forall_cons_2; try apply Forall_nil_2;
      intros (bytes & Hcurl & Hsum); vm_compute in Hcurl;
      try discriminate Hcurl.
    injection Hcurl as <-. vm_compute in Hsum. discriminate Hsum.
  - vm_compute. reflexivity.
  - vm_compute. reflexivity.
Defined.

(** C3 as stated fails: with the archive only at its pool path on the first
    of two mirrors, none of the sources the claim lists (cache keyed by pool
    path, each mirror's copy of the file name, the pool path on the last
    mirror) yields a byte, so the fetch would have to fail; the script finds
    the archive on its third attempt and unpacks it. *)
Lemma fetch_stated_order_counterexample :
  fetch_hello curl_pool_of_first [mirror_a; mirror_b] = Unpacks hello_deb
  ∧ stated_sources "/src" "_build" hello_filename hello_pool
      [mirror_a; mirror_b]
    = ["file:///src/_build/apt/mirror/" +:+ hello_pool;
       mirror_a +:+ "/" +:+ hello_filename;
       mirror_b +:+ "/" +:+ hello_filename;
       mirror_b +:+ "/" +:+ hello_pool]
  ∧ Forall (λ url, curl_pool_of_first url = None)
      (stated_sources "/src" "_build" hello_filename hello_pool
         [mirror_a; mirror_b]).
Proof.
  split; [vm_compute; reflexivity|]. split; [vm_compute; reflexivity|].
  repeat apply Forall_cons_2; try apply Forall_nil_2; vm_compute; reflexivity.
Qed.

(** X1 when every mirror answers with a page that is not the archive: the
    page is what the script unpacks. *)
Lemma fetch_exhausted_witness :
  fetch_hello curl_login_page [mirror_a; mirror_b]
  = Unpacks "<html>Please log in</html>".
Proof.
  refine (fetch_exhausted SHA256.hexdigest curl_login_page "/src" "_build"
            hello_sha256 hello_filename hello_pool [mirror_a; mirror_b] None
            _ _ _).
  - vm_compute. reflexivity.
  - discriminate.
  - repeat apply Forall_cons_2; try apply Forall_nil_2;
      intros (bytes & Hcurl & Hsum); vm_compute in Hcurl;
      try discriminate Hcurl;
      injection Hcurl as <-; vm_compute in Hsum; discriminate Hsum.
Defined.

End FetchingExamples.


(** ** Publishing the records and the lockfile *)

Section Publishing.

Import Publish.

Implicit Types (disk : fs) (a b path text : string) (now : nat).





Lemma string_app_assoc s t u : (s +:+ t) +:+ u = s +:+ t +:+ u.
Proof. induction s as [|c s IH]; [done|]. by rewrite !app_String, IH. Qed.











(** A lockfile that the update finds unchanged keeps its modification
    time; one that changed gets the time of the update. *)
Example update_lockfile_write_example :
  let old := {| content := "Package: a"; mtime := 5 |} in
  (update_lockfile_write "img.lock" "Package: a" 9 {["img.lock" := old]}
   ≫= (.!! "img.lock")) = Some old
  ∧ (update_lockfile_write "img.lock" "Package: b" 9 {["img.lock" := old]}
     ≫= (.!! "img.lock")) = Some {| content := "Package: b"; mtime := 9 |}.
Proof. split; vm_compute; reflexivity. Qed.

End Publishing.

(** ** The parser: paragraphs and fields *)

Section Paragraphs.

Implicit Types (stream pre post : list string) (pkg : pkg_dict)
  (line s t value : string).

(** X4. What the parser makes of a paragraph does not depend on what
    follows it.  For a stream cut after a blank line: when the first part
    raises, the whole stream gives what the first part gives, the rest is
    never read; otherwise the whole stream gives the records of the first
    part followed by what the rest gives when it is parsed on its own. *)
Theorem parse_packages_paragraphs_independent pre line post :
  blank line →
  parse_packages (pre ++ line :: post)
  = match (parse_packages (pre ++ [line])).2 with
    | Some e => parse_packages (pre ++ [line])
    | None => ((parse_packages (pre ++ [line])).1 ++ (parse_packages post).1,
               (parse_packages post).2)
    end.
Proof.
  intros Hblank. rewrite (cons_middle line pre post), app_assoc.
  unfold parse_packages. rewrite (parse_loop_app (pre ++ [line]) post).
  destruct (loop_end_blank pre line ∅ None Hblank) as [Hend|Hend];
    rewrite Hend.
  - apply loop_end_None in Hend. by destruct (parse_loop _ _ _).2.
  - destruct (parse_loop (pre ++ [line]) ∅ None).2 as [e|] eqn:Herr; [|done].
    assert (loop_end (pre ++ [line]) ∅ None = None) as Hnone
      by (apply loop_end_None; by rewrite Herr).
    by rewrite Hnone in Hend.
Qed.

Lemma parse_packages_paragraphs_independent_witness :
  parse_packages
    (["Package: a" +:+ nl; " no label yet" +:+ nl] ++ nl :: ["Package: b" +:+ nl; nl])
  = ([{["Package" := "a" +:+ nl +:+ "no label yet"]}; {["Package" := "b"]}], None).
Proof.
  rewrite (parse_packages_paragraphs_independent _ nl _); [|reflexivity].
  vm_compute. reflexivity.
Defined.

(** X5. No record that the parser yields is empty, from whatever state
    its loop starts: blank lines in a row, at the start or at the end of
    the stream, add no record. *)
Theorem parse_loop_yields_no_empty_record stream pkg (label : option string) :
  Forall (λ record, record ≠ ∅) (parse_loop stream pkg label).1.
Proof.
  revert pkg label. induction stream as [|line rest IH]; intros pkg label; simpl.
  { constructor. }
  destruct (String.eqb (strip line) "").
  { destruct (decide (pkg = ∅)); [apply IH|]. constructor; [done|apply IH]. }
  repeat match goal with
  | |- context [if ?b then _ else _] => destruct b
  | |- context [append_field ?p ?l ?s] => destruct (append_field p l s)
  | |- context [split_once ?a ?b] => destruct (split_once a b) as [[??]|]
  end; simpl; first [apply IH | constructor].
Qed.

(** The only exceptions of the parser. *)
Lemma parse_loop_exceptions stream pkg (label : option string) e :
  (parse_loop stream pkg label).2 = Some e →
  e = ValueError ∨ ∃ key, e = KeyError key.
Proof.
  revert pkg label. induction stream as [|line rest IH]; intros pkg label; simpl.
  { done. }
  destruct (String.eqb (strip line) "").
  { destruct (decide (pkg = ∅)); apply IH. }
  unfold append_field.
  repeat match goal with
  | |- context [split_once ?a ?b] => destruct (split_once a b) as [[??]|]
  | |- context [if ?b then _ else _] => destruct b
  | |- context [match ?l with Some _ => _ | None => _ end] => destruct l
  end; simpl; first [apply IH | intros [= <-]; first [by left | by right; eexists]].
Qed.

Lemma app_empty_r s : s +:+ "" = s.
Proof. induction s as [|c s IH]; [done|]. by rewrite app_String, IH. Qed.

Lemma join_empty_cons x (l : list string) : join "" (x :: l) = x +:+ join "" l.
Proof. destruct l; simpl; [by rewrite app_empty_r|done]. Qed.

Lemma rstrip_app_nl s : rstrip (s +:+ nl) = rstrip s.
Proof.
  induction s as [|c s IH]; [done|]. rewrite app_String. simpl. by rewrite IH.
Qed.

Lemma lstrip_app_nl s :
  lstrip (s +:+ nl) = if String.eqb (lstrip s) "" then "" else lstrip s +:+ nl.
Proof.
  induction s as [|c s IH]; [done|]. rewrite app_String. simpl.
  destruct (is_space c); [done|]. by rewrite app_String.
Qed.

(** The line feed that ends a line goes away with the white space. *)
Lemma strip_app_nl s : strip (s +:+ nl) = strip s.
Proof.
  unfold strip. rewrite lstrip_app_nl.
  destruct (String.eqb_spec (lstrip s) "") as [->|]; [done|].
  apply rstrip_app_nl.
Qed.

Lemma rstrip_nonempty c s : is_space c = false → rstrip (String c s) ≠ "".
Proof. intros Hc. simpl. destruct (rstrip s); [by rewrite Hc|done]. Qed.

(** A string with a byte that is not white space is not blank. *)
Lemma strip_nonempty s c t : is_space c = false → strip (s +:+ String c t) ≠ "".
Proof.
  intros Hc. unfold strip. induction s as [|a s IH].
  - change ("" +:+ String c t) with (String c t). simpl. rewrite Hc.
    by apply rstrip_nonempty.
  - rewrite app_String. simpl. destruct (is_space a) eqn:Ha; [done|].
    rewrite <-app_String. by apply rstrip_nonempty.
Qed.

Lemma startswith_String a p b s :
  startswith (String a p) (String b s) = Ascii.eqb a b && startswith p s.
Proof. done. Qed.

Lemma split_once_String sep c s :
  split_once sep (String c s)
  = if startswith sep (String c s)
    then Some ("", drop (String.length sep) (String c s))
    else match split_once sep s with
         | Some (a, b) => Some (String c a, b)
         | None => None
         end.
Proof. done. Qed.

(** [split(': ', 1)] cuts a line at the end of a label without [': ']. *)
Lemma split_once_label s rest :
  split_once ": " s = None →
  split_once ": " (s +:+ ": " +:+ rest) = Some (s, rest).
Proof.
  induction s as [|c s IH]; [done|].
  rewrite app_String, !split_once_String.
  destruct (startswith ": " (String c s)) eqn:Hpre; [done|].
  destruct (split_once ": " s) as [[??]|] eqn:Hrec; [done|]. intros _.
  rewrite IH by done.
  assert (startswith ": " (String c (s +:+ ": " +:+ rest)) = false) as ->;
    [|done].
  revert Hpre. change ": " with (String ":" " ") at 1 2.
  rewrite !startswith_String. destruct (Ascii.eqb ":" c); [|done].
  destruct s as [|d s]; [done|].
  rewrite app_String. change " " with (String " " "") at 1 2.
  rewrite !startswith_String. by destruct (Ascii.eqb " " d).
Qed.

Lemma startswith_space_label s rest :
  startswith " " s = false → startswith " " (s +:+ ": " +:+ rest) = false.
Proof. by destruct s. Qed.

(** A line of a file is never the two bytes [" ."]. *)
Lemma not_marker s : String.eqb (s +:+ nl) " ." = false.
Proof.
  apply String.eqb_neq. destruct s as [|a [|b [|c s]]]; try done.
  all: rewrite ?app_String; intros [= ? ?]; try done.
Qed.

(** The further lines of a value are appended to it one by one. *)
Lemma parse_loop_more s x (more : list string) rest pkg :
  Forall (λ m, strip m ≠ "") more → pkg !! s = Some x →
  parse_loop (((λ m, " " +:+ m +:+ nl) <$> more) ++ rest) pkg (Some s)
  = parse_loop rest
      (<[s := x +:+ join "" ((λ m, nl +:+ strip m) <$> more)]> pkg) (Some s).
Proof.
  intros Hmore. revert x pkg.
  induction Hmore as [|m more Hm _ IH]; intros x pkg Hx.
  { simpl. by rewrite app_empty_r, insert_id. }
  rewrite !fmap_cons, join_empty_cons.
  change ((?a :: ?l) ++ rest) with (a :: (l ++ rest)).
  change (" " +:+ m +:+ nl) with (String " " (m +:+ nl)).
  unfold parse_loop at 1; fold parse_loop.
  assert (strip (String " " (m +:+ nl)) = strip m) as ->
    by apply strip_app_nl.
  apply String.eqb_neq in Hm as ->.
  rewrite <-app_String, not_marker, app_String.
  change (startswith " " (String " " (m +:+ nl))) with true. cbv iota.
  unfold append_field. rewrite Hx.
  change (drop 1 (String " " (m +:+ nl))) with (m +:+ nl).
  rewrite strip_app_nl.
  rewrite (IH (x +:+ nl +:+ strip m)) by apply lookup_insert_eq.
  by rewrite insert_insert_eq, !string_app_assoc.
Qed.

(** The loop over the lines of some fields: the fields are set in turn. *)
Lemma parse_loop_fields (fields : list field) rest pkg (seen : option string) :
  Forall field_ok fields →
  parse_loop ((fields ≫= field_lines) ++ rest) pkg seen
  = parse_loop rest (set_fields pkg fields)
      (from_option (λ f : field, Some f.1.1) seen (last fields)).
Proof.
  intros Hok. revert pkg seen.
  induction Hok as [|[[s value] more] fields (Hsep & Hsp & Hmore) _ IH];
    intros pkg seen; [done|].
  simpl in Hsep, Hsp, Hmore.
  change ((?f :: ?fs) ≫= field_lines) with (field_lines f ++ (fs ≫= field_lines)).
  unfold field_lines at 1. simpl fst. simpl snd.
  rewrite <-app_assoc.
  change ((?a :: ?l) ++ ?r) with (a :: (l ++ r)).
  unfold parse_loop at 1; fold parse_loop.
  assert (String.eqb (strip (s +:+ ": " +:+ value +:+ nl)) "" = false) as ->.
  { apply String.eqb_neq.
    change (": " +:+ value +:+ nl) with (String ":" (" " +:+ value +:+ nl)).
    by apply strip_nonempty. }
  rewrite split_once_label, startswith_space_label by done.
  assert (String.eqb (s +:+ ": " +:+ value +:+ nl) " ." = false) as ->.
  { rewrite <-!string_app_assoc. apply not_marker. }
  rewrite strip_app_nl.
  rewrite (parse_loop_more s (strip value)) by (done || apply lookup_insert_eq).
  rewrite insert_insert_eq, IH. f_equal.
  rewrite last_cons. by destruct (last fields).
Qed.

(** X6. A paragraph spelt as fields, each on a line [label: value]
    followed by the further lines of its value behind a space, and ended by
    an empty line, is read as one record: every label is mapped to the
    lines of its value, stripped and joined by line feeds, and of two
    fields with the same label the later one is kept. *)
Theorem parse_packages_reads_fields (fields : list field) :
  Forall field_ok fields → fields ≠ [] →
  parse_packages ((fields ≫= field_lines) ++ [nl])
  = ([set_fields ∅ fields], None).
Proof.
  intros Hok Hne. unfold parse_packages. rewrite parse_loop_fields by done.
  simpl. rewrite decide_False; [done|].
  destruct fields as [|f fields _] using rev_ind; [done|].
  unfold set_fields. rewrite foldl_app. simpl. apply insert_non_empty.
Qed.

Lemma parse_packages_reads_fields_witness :
  parse_packages
    (([("Package", "hello", []); ("Description", " greeter ", ["says hello"; "."]);
       ("Package", "hello-2", [])] ≫= field_lines) ++ [nl])
  = ([ <["Package" := "hello-2"]>
       (<["Description" := "greeter" +:+ nl +:+ "says hello" +:+ nl +:+ "."]> ∅) ],
     None).
Proof.
  rewrite parse_packages_reads_fields; [|repeat constructor; by vm_compute|done].
  vm_compute. reflexivity.
Defined.

End Paragraphs.

(** ** Images of lockfiles that can be read *)

(** Membership in a set of outputs that is written out. *)
Ltac known :=
  rewrite ?elem_of_union, ?elem_of_list_to_set, ?elem_of_cons,
    ?elem_of_singleton; auto 12.

Section Lockfiles.

Variables ostree_repo builddir : string.

Implicit Types (st : apt) (lockfile text : string) (pkg : pkg_dict)
  (records : list pkg_dict) (known : gset string).

Local Arguments head_of : simpl never.
Local Arguments ostree_ref : simpl never.
Local Arguments image_digest : simpl never.
Local Arguments unpacked_branch : simpl never.
Local Arguments ref_base : simpl never.
Local Arguments aptly_pool_filename : simpl never.
Local Arguments unquote : simpl never.

Lemma with_builds_nil st : with_builds st [] = st.
Proof. destruct st. unfold with_builds. simpl. by rewrite app_nil_r. Qed.

Lemma with_builds_app st news more :
  with_builds (with_builds st news) more = with_builds st (news ++ more).
Proof. unfold with_builds. simpl. by rewrite app_assoc. Qed.

(** The body of the loop on one record. *)
Lemma package_rules_run pkg st :
  package_rules ostree_repo builddir pkg st
  = (match missing_key pkg with
     | Some key => inl (KeyError (Some key))
     | None =>
         inr (package_data ostree_repo pkg, package_info ostree_repo pkg,
              package_status builddir pkg, package_available builddir pkg)
     end,
     with_builds st (package_statements ostree_repo builddir pkg)).
Proof.
  unfold package_rules, missing_key, package_statements, missing_key.
  unfold download_deb_statement, make_dpkg_info_statement, package_data,
    package_info, package_status, package_available, package_ref_base.
  run_M.
  destruct (pkg !! "Filename") as [F|]; run_M;
    [|by rewrite with_builds_nil].
  destruct (pkg !! "SHA256") as [D|]; run_M;
    [|by rewrite with_builds_nil].
  destruct (pkg !! "Package") as [P|]; run_M; [|done].
  unfold with_builds. simpl. by rewrite <-app_assoc.
Qed.

(** The loop over the records. *)
Lemma for_each_package_rules records st :
  for_each records (package_rules ostree_repo builddir) st
  = (match first_missing_key records with
     | Some key => inl (KeyError (Some key))
     | None =>
         inr ((λ pkg, (package_data ostree_repo pkg,
                       package_info ostree_repo pkg,
                       package_status builddir pkg,
                       package_available builddir pkg)) <$> records)
     end,
     with_builds st (lockfile_statements ostree_repo builddir records)).
Proof.
  revert st. induction records as [|pkg records IH]; intros st.
  { simpl. by rewrite with_builds_nil. }
  cbn [for_each]. unfold mbind at 1, M_bind at 1.
  rewrite package_rules_run. unfold first_missing_key.
  cbn [omap list_omap lockfile_statements].
  destruct (missing_key pkg) as [key|] eqn:Hkey.
  { simpl. by rewrite app_nil_r. }
  unfold mbind at 1, M_bind at 1. rewrite IH, with_builds_app.
  unfold first_missing_key.
  by destruct (head (omap missing_key records)).
Qed.

(** The statements after the loop. *)
Lemma image_rules_run lockfile architecture records st :
  image_rules ostree_repo lockfile
    [head_of ostree_repo ("deb/dpkg-base/" +:+ architecture)]
    (package_data ostree_repo <$> records)
    (package_info ostree_repo <$> records)
    (package_status builddir <$> records)
    (package_available builddir <$> records) st
  = (inr {| filename := head_of ostree_repo (unpacked_branch lockfile);
            ref := unpacked_branch lockfile |},
     with_builds st
       (image_statements ostree_repo builddir lockfile architecture records)).
Proof.
  unfold image_rules, image_statements, with_builds. run_M.
  rewrite ostree_ref_head_of. f_equal. f_equal. by rewrite <-!app_assoc.
Qed.

(** [image_from_lockfile], whatever is found at the path of the lockfile. *)
Lemma image_from_lockfile_run lockfile architecture st :
  image_from_lockfile ostree_repo builddir lockfile architecture st
  = let arch := default "amd64" architecture in
    let st0 := opening ostree_repo arch st in
    let outcome := image_outcome ostree_repo builddir lockfile st0 in
    let st1 := with_builds st0 outcome.2 in
    match outcome.1 with
    | inl e => (inl e, st1)
    | inr records =>
        (inr {| filename := head_of ostree_repo (unpacked_branch lockfile);
                ref := unpacked_branch lockfile |},
         with_builds st1
           (image_statements ostree_repo builddir lockfile arch records))
    end.
Proof.
  unfold image_from_lockfile.
  unfold mbind at 1, M_bind at 1. unfold dpkg_base_build, ninja_build at 1.
  unfold mbind at 1, M_bind at 1. unfold get_deb_pool_mirrors at 1.
  unfold mbind at 1, M_bind at 1. unfold ninja_write at 1.
  cbn [builds files update_lockfile_rules deb_pool_mirrors].
  fold (dpkg_base_statement ostree_repo (default "amd64" architecture)).
  fold (text_of (deb_pool_mirrors st)). fold deb_pool_mirrors_path.
  fold (opening ostree_repo (default "amd64" architecture) st).
  set (arch := default "amd64" architecture).
  set (st0 := opening ostree_repo arch st).
  unfold mbind at 1, M_bind at 1.
  unfold except_enoent, lockfile_rules, image_outcome.
  unfold mbind at 1, M_bind at 1. unfold ninja_open at 1.
  destruct (files st0 !! lockfile) as [[text|errno]|]; cbn zeta.
  - unfold mbind at 1, M_bind at 1. fold (parse_packages_file text).
    rewrite for_each_package_rules.
    destruct (first_missing_key (parse_packages_file text).1) as [key|]; [done|].
    destruct (parse_packages_file text).2 as [e|] eqn:Herr.
    + unfold raise.
      destruct (parse_loop_exceptions _ _ _ _ Herr) as [->|[key ->]]; done.
    + unfold mret, M_ret. cbn iota. rewrite <-!list_fmap_compose.
      apply image_rules_run.
  - destruct (decide (errno = ENOENT)) as [->|Herrno].
    + rewrite decide_False by naive_solver. cbn [snd fst].
      rewrite with_builds_nil. apply (image_rules_run _ _ []).
    + rewrite decide_True by done. cbn [fst snd]. by rewrite with_builds_nil.
  - rewrite decide_False by naive_solver. cbn [snd fst].
    rewrite with_builds_nil. apply (image_rules_run _ _ []).
Qed.

Lemma image_outcome_opening lockfile architecture st :
  lockfile ≠ deb_pool_mirrors_path →
  image_outcome ostree_repo builddir lockfile (opening ostree_repo architecture st)
  = image_outcome ostree_repo builddir lockfile st.
Proof.
  intros Hne. unfold image_outcome, opening. simpl.
  by rewrite lookup_insert_ne.
Qed.

Lemma first_missing_key_None records :
  first_missing_key records = None ↔ Forall (λ pkg, missing_key pkg = None) records.
Proof.
  unfold first_missing_key. induction records as [|pkg records IH]; simpl.
  { split; [constructor|done]. }
  rewrite Forall_cons. destruct (missing_key pkg) as [key|]; simpl.
  - split; [done|by intros [? _]].
  - rewrite IH. split; [by split|by intros [_ ?]].
Qed.

Lemma first_missing_key_Some pre pkg post key :
  Forall (λ pkg, missing_key pkg = None) pre → missing_key pkg = Some key →
  first_missing_key (pre ++ pkg :: post) = Some key.
Proof.
  unfold first_missing_key. intros Hpre Hkey.
  induction Hpre as [|p pre Hp _ IH]; simpl; [by rewrite Hkey|].
  by rewrite Hp.
Qed.

Lemma lockfile_statements_complete records :
  Forall (λ pkg, missing_key pkg = None) records →
  lockfile_statements ostree_repo builddir records
  = records ≫= λ pkg, [download_deb_statement ostree_repo pkg;
                       make_dpkg_info_statement ostree_repo builddir pkg].
Proof.
  induction 1 as [|pkg records Hpkg _ IH]; [done|]. simpl.
  unfold package_statements. rewrite Hpkg, IH. done.
Qed.

Lemma lockfile_statements_incomplete pre pkg post key :
  Forall (λ pkg, missing_key pkg = None) pre → missing_key pkg = Some key →
  lockfile_statements ostree_repo builddir (pre ++ pkg :: post)
  = lockfile_statements ostree_repo builddir pre
    ++ (if String.eqb key "Package"
        then [download_deb_statement ostree_repo pkg] else []).
Proof.
  intros Hpre Hkey. induction Hpre as [|p pre Hp _ IH]; simpl.
  - unfold package_statements. rewrite Hkey. by rewrite app_nil_r.
  - rewrite Hp, IH. by rewrite app_assoc.
Qed.

Lemma missing_key_None pkg :
  missing_key pkg = None
  ↔ is_Some (pkg !! "Filename") ∧ is_Some (pkg !! "SHA256")
    ∧ is_Some (pkg !! "Package").
Proof.
  unfold missing_key. rewrite <-!not_eq_None_Some.
  repeat case_decide; split; try done; by intros (? & ? & ?).
Qed.

(** X7. On a lockfile that can be read, that the parser reads to its end
    and whose records all have the keys [Filename], [SHA256] and
    [Package], [image_from_lockfile] returns the ref of the unpacked image.
    After the statement of the base tree it has written one
    [download_deb] and one [make_dpkg_info] statement per record, in the
    order of the lockfile, then the four combinations, whose inputs are the
    data, info, status and available outputs of the records in that order,
    the image and its phony target. *)
Theorem image_from_lockfile_well_formed lockfile architecture st text records :
  lockfile ≠ deb_pool_mirrors_path →
  files st !! lockfile = Some (File text) →
  parse_packages_file text = (records, None) →
  Forall (λ pkg, is_Some (pkg !! "Filename") ∧ is_Some (pkg !! "SHA256")
                 ∧ is_Some (pkg !! "Package")) records →
  let arch := default "amd64" architecture in
  image_from_lockfile ostree_repo builddir lockfile architecture st
  = (inr {| filename := head_of ostree_repo (unpacked_branch lockfile);
            ref := unpacked_branch lockfile |},
     with_builds (opening ostree_repo arch st)
       ((records ≫= λ pkg,
           [download_deb_statement ostree_repo pkg;
            make_dpkg_info_statement ostree_repo builddir pkg])
        ++ image_statements ostree_repo builddir lockfile arch records)).
Proof.
  intros Hne Hfile Hparse Hrecords arch.
  rewrite image_from_lockfile_run. cbn zeta.
  rewrite image_outcome_opening by done. unfold image_outcome. rewrite Hfile, Hparse. cbn [fst snd].
  eapply Forall_impl in Hrecords; [|intros pkg; apply missing_key_None].
  rewrite (proj2 (first_missing_key_None records)) by done.
  rewrite lockfile_statements_complete by done.
  by rewrite with_builds_app.
Qed.

(** X8. A record without [Filename], [SHA256] or [Package] makes
    [image_from_lockfile] raise [KeyError] for the first of these keys that
    the record lacks: the handler of the [try] block lets it pass.  The
    statements of the records before it are written, and the
    [download_deb] statement of the record itself when the key is
    [Package]; no combination, image or phony statement is.  The lines
    after that record are not read: an exception that the parser would
    raise on them is not the one that leaves the method. *)
Theorem image_from_lockfile_record_without_key lockfile architecture st text
    pre pkg post key :
  lockfile ≠ deb_pool_mirrors_path →
  files st !! lockfile = Some (File text) →
  (parse_packages_file text).1 = pre ++ pkg :: post →
  Forall (λ pkg, missing_key pkg = None) pre →
  missing_key pkg = Some key →
  image_from_lockfile ostree_repo builddir lockfile architecture st
  = (inl (KeyError (Some key)),
     with_builds (opening ostree_repo (default "amd64" architecture) st)
       ((pre ≫= λ pkg,
           [download_deb_statement ostree_repo pkg;
            make_dpkg_info_statement ostree_repo builddir pkg])
        ++ (if String.eqb key "Package"
            then [download_deb_statement ostree_repo pkg] else []))).
Proof.
  intros Hne Hfile Hparse Hpre Hkey.
  rewrite image_from_lockfile_run. cbn zeta.
  rewrite image_outcome_opening by done. unfold image_outcome. rewrite Hfile, Hparse. cbn [fst snd].
  rewrite (first_missing_key_Some pre pkg post key) by done.
  rewrite (lockfile_statements_incomplete pre pkg post key) by done.
  by rewrite lockfile_statements_complete.
Qed.

(** X9. When the parser raises on a lockfile whose records, as far as
    they were yielded, have the three keys, that exception, a [ValueError]
    or a [KeyError], leaves [image_from_lockfile]: the handler of the [try]
    block, which is for a lockfile that does not exist yet, does not
    swallow it.  The statements of the records yielded before are written,
    those of the image are not. *)
Theorem image_from_lockfile_parser_raises lockfile architecture st text
    records e :
  lockfile ≠ deb_pool_mirrors_path →
  files st !! lockfile = Some (File text) →
  parse_packages_file text = (records, Some e) →
  Forall (λ pkg, missing_key pkg = None) records →
  image_from_lockfile ostree_repo builddir lockfile architecture st
  = (inl e,
     with_builds (opening ostree_repo (default "amd64" architecture) st)
       (records ≫= λ pkg,
          [download_deb_statement ostree_repo pkg;
           make_dpkg_info_statement ostree_repo builddir pkg]))
  ∧ (e = ValueError ∨ ∃ key, e = KeyError key).
Proof.
  intros Hne Hfile Hparse Hrecords. split.
  - rewrite image_from_lockfile_run. cbn zeta.
    rewrite image_outcome_opening by done. unfold image_outcome. rewrite Hfile, Hparse. cbn [fst snd].
    rewrite (proj2 (first_missing_key_None records)) by done.
    by rewrite lockfile_statements_complete.
  - apply (parse_loop_exceptions (file_lines text) ∅ None).
    fold (parse_packages (file_lines text)). fold (parse_packages_file text).
    by rewrite Hparse.
Qed.

Lemma inputs_produced_app known (l1 l2 : list build) :
  inputs_produced known (l1 ++ l2)
  = inputs_produced known l1 && inputs_produced (outputs_of known l1) l2.
Proof.
  revert known. induction l1 as [|b l1 IH]; intros known; [done|].
  simpl. by rewrite IH, andb_assoc.
Qed.

Lemma forallb_known known (l : list string) :
  forallb (λ x, bool_decide (x ∈ known)) l = true ↔ ∀ x, x ∈ l → x ∈ known.
Proof.
  induction l as [|x l IH]; simpl.
  { split; [by intros _ ? ?%elem_of_nil|done]. }
  rewrite andb_true_iff, IH, bool_decide_eq_true.
  split.
  - intros [Hx Hl] y [->|Hy]%elem_of_cons; auto.
  - intros Hl. split; [apply Hl; by left|]. intros y Hy. apply Hl. by right.
Qed.

Lemma inputs_produced_mono known known' (l : list build) :
  known ⊆ known' →
  inputs_produced known l = true → inputs_produced known' l = true.
Proof.
  revert known known'. induction l as [|b l IH]; intros known known' Hsub; [done|].
  simpl. rewrite !andb_true_iff, !forallb_known. intros [Hin Hrest]. split.
  - intros x Hx. by apply Hsub, Hin.
  - eapply IH; [|done]. by apply union_mono_r.
Qed.

Lemma outputs_of_known known (l : list build) x :
  x ∈ known → x ∈ outputs_of known l.
Proof.
  revert known. induction l as [|b l IH]; intros known Hx; [done|].
  simpl. apply IH. by apply elem_of_union_l.
Qed.

Lemma outputs_of_app known (l1 l2 : list build) :
  outputs_of known (l1 ++ l2) = outputs_of (outputs_of known l1) l2.
Proof. apply foldl_app. Qed.

Lemma package_statements_produced known pkg :
  inputs_produced known (package_statements ostree_repo builddir pkg) = true.
Proof.
  unfold package_statements.
  destruct (missing_key pkg) as [key|]; [by destruct (String.eqb key "Package")|].
  simpl. rewrite bool_decide_eq_true_2; [done|]. known.
Qed.

Lemma lockfile_statements_produced known records :
  inputs_produced known (lockfile_statements ostree_repo builddir records) = true.
Proof.
  revert known. induction records as [|pkg records IH]; intros known; [done|].
  simpl. rewrite inputs_produced_app, package_statements_produced.
  destruct (missing_key pkg); [done|]. apply IH.
Qed.

(** The outputs of the records are known after their statements. *)
Lemma lockfile_statements_outputs known records pkg :
  Forall (λ pkg, missing_key pkg = None) records → pkg ∈ records →
  package_data ostree_repo pkg
    ∈ outputs_of known (lockfile_statements ostree_repo builddir records)
  ∧ package_info ostree_repo pkg
    ∈ outputs_of known (lockfile_statements ostree_repo builddir records)
  ∧ package_status builddir pkg
    ∈ outputs_of known (lockfile_statements ostree_repo builddir records)
  ∧ package_available builddir pkg
    ∈ outputs_of known (lockfile_statements ostree_repo builddir records).
Proof.
  intros Hall. revert known.
  induction Hall as [|p records Hp _ IH]; intros known Hin.
  { by apply elem_of_nil in Hin. }
  simpl. rewrite Hp, outputs_of_app. unfold package_statements. rewrite Hp.
  apply elem_of_cons in Hin as [->|Hin]; [|by apply IH].
  repeat split; apply outputs_of_known; simpl; known.
Qed.

Lemma image_statements_produced known lockfile architecture records :
  head_of ostree_repo ("deb/dpkg-base/" +:+ architecture) ∈ known →
  (∀ pkg, pkg ∈ records →
     package_data ostree_repo pkg ∈ known ∧ package_info ostree_repo pkg ∈ known
     ∧ package_status builddir pkg ∈ known
     ∧ package_available builddir pkg ∈ known) →
  inputs_produced known
    (image_statements ostree_repo builddir lockfile architecture records) = true.
Proof.
  intros Hbase Hrecords. unfold image_statements. cbn [inputs_produced b_inputs b_outputs].
  repeat (apply andb_true_iff; split); try done.
  1-4: apply forallb_known; intros x (pkg & -> & Hpkg)%list_elem_of_fmap;
    apply Hrecords in Hpkg as (? & ? & ? & ?); known.
  all: cbn [forallb]; rewrite ?andb_true_iff, ?bool_decide_eq_true;
    repeat split; try done; known.
Qed.

(** The statements that [image_from_lockfile] writes, however it ends. *)
Lemma image_from_lockfile_news lockfile architecture st :
  ∃ news,
    builds (image_from_lockfile ostree_repo builddir lockfile architecture st).2
    = builds st ++ news
    ∧ inputs_produced ∅ news = true
    ∧ (∀ r, (image_from_lockfile ostree_repo builddir lockfile architecture
               st).1 = inr r →
            head_of ostree_repo (unpacked_branch lockfile) ∈ outputs_of ∅ news).
Proof.
  rewrite image_from_lockfile_run. cbn zeta.
  set (arch := default "amd64" architecture).
  set (st0 := opening ostree_repo arch st).
  assert (inputs_produced ∅
            (dpkg_base_statement ostree_repo arch
               :: (image_outcome ostree_repo builddir lockfile st0).2) = true)
    as Hloop.
  { unfold image_outcome. simpl.
    repeat case_match; simpl; try done; apply lockfile_statements_produced. }
  destruct (image_outcome ostree_repo builddir lockfile st0).1
    as [e|records] eqn:Hout; simpl.
  { eexists. rewrite <-app_assoc. split; [reflexivity|]. by split. }
  eexists. rewrite <-!app_assoc. split; [reflexivity|].
  change ([?b] ++ ?l1 ++ ?l2) with ((b :: l1) ++ l2).
  split.
  2:{ intros _ _. rewrite outputs_of_app. unfold image_statements.
      cbn [outputs_of foldl b_outputs]. known. }
  rewrite inputs_produced_app, Hloop. simpl.
  apply image_statements_produced.
  { apply outputs_of_known. known. }
  intros pkg Hpkg. revert Hout. unfold image_outcome.
  destruct (files st0 !! lockfile) as [[text|errno]|]; simpl.
  - destruct (first_missing_key _) eqn:Hkeys; [done|].
    destruct (parse_packages_file text).2; [done|]. intros [= <-].
    apply lockfile_statements_outputs; [|done].
    by apply first_missing_key_None.
  - case_decide; [|done]. intros [= <-]. by apply elem_of_nil in Hpkg.
  - intros [= <-]. by apply elem_of_nil in Hpkg.
Qed.

(** X10. Whatever is found at the path of the lockfile and however
    the call ends, every input of a statement that [image_from_lockfile]
    writes is an output of a statement that the same call wrote before it:
    the statements can be added to any ninja file without an input that
    nothing produces. *)
Theorem image_from_lockfile_inputs_produced lockfile architecture st :
  ∃ news,
    builds (image_from_lockfile ostree_repo builddir lockfile architecture st).2
    = builds st ++ news
    ∧ inputs_produced ∅ news = true.
Proof.
  destruct (image_from_lockfile_news lockfile architecture st)
    as (news & Hnews & Hproduced & _).
  by exists news.
Qed.

Lemma rev_app_append (s t : string) :
  String.rev_app s t = String.rev s +:+ t.
Proof.
  unfold String.rev. revert t. induction s as [|c s IH]; intros t; [done|].
  simpl. rewrite (IH (String c t)), (IH (String c "")).
  by rewrite string_app_assoc.
Qed.

Lemma rev_String c (s : string) :
  String.rev (String c s) = String.rev s +:+ String c "".
Proof. unfold String.rev at 1. simpl. apply rev_app_append. Qed.

Lemma file_lines_go_line cur line rest :
  occurs "010" line = false →
  file_lines_go cur (line +:+ nl +:+ rest)
  = (String.rev cur +:+ line +:+ nl) :: file_lines_go "" rest.
Proof.
  revert cur. induction line as [|c line IH]; intros cur Hfree.
  - change ("" +:+ nl +:+ rest) with (String "010" rest).
    cbn [file_lines_go]. change (Ascii.eqb "010" "010") with true. cbv iota.
    by rewrite rev_String.
  - rewrite app_String. cbn [file_lines_go].
    simpl in Hfree. apply orb_false_iff in Hfree as [-> Hfree].
    rewrite IH by done. rewrite rev_String, string_app_assoc. done.
Qed.

(** Reading back a text written line by line gives the lines. *)
Lemma file_lines_text_of (lines : list string) :
  Forall (λ line, occurs "010" line = false) lines →
  file_lines (text_of lines) = (λ line, line +:+ nl) <$> lines.
Proof.
  unfold file_lines, text_of. induction 1 as [|line lines Hline _ IH]; [done|].
  rewrite !fmap_cons, join_empty_cons, string_app_assoc.
  rewrite file_lines_go_line by done. by rewrite IH.
Qed.

(** X11. After [image_from_lockfile], however it ends, the file
    [_build/deb_pool_mirrors] holds the mirrors of the [Apt] object in
    their order, one per line: read line by line it gives back each mirror
    followed by a line feed, provided no mirror has a line feed in it. *)
Theorem image_from_lockfile_lists_mirrors lockfile architecture st :
  Forall (λ mirror, occurs "010" mirror = false) (deb_pool_mirrors st) →
  ninja_open deb_pool_mirrors_path
    (image_from_lockfile ostree_repo builddir lockfile architecture st).2
  = (inr ((λ mirror, mirror +:+ nl) <$> deb_pool_mirrors st),
     (image_from_lockfile ostree_repo builddir lockfile architecture st).2).
Proof.
  intros Hmirrors. rewrite image_from_lockfile_run. cbn zeta.
  set (st0 := opening ostree_repo (default "amd64" architecture) st).
  match goal with |- ninja_open _ ?s = _ =>
    assert (files s = files st0) as Hfiles
      by (by destruct (image_outcome _ _ _ _).1) end.
  unfold ninja_open. rewrite Hfiles. unfold st0, opening. simpl.
  rewrite lookup_insert_eq. by rewrite file_lines_text_of.
Qed.

End Lockfiles.

Section LockfileExamples.

Lemma image_from_lockfile_well_formed_witness :
  image_from_lockfile "repo" "_build" "a.lock" None example_apt
  = (inr {| filename := head_of "repo" (unpacked_branch "a.lock");
            ref := unpacked_branch "a.lock" |},
     with_builds (opening "repo" "amd64" example_apt)
       ([download_deb_statement "repo" example_record;
         make_dpkg_info_statement "repo" "_build" example_record]
        ++ image_statements "repo" "_build" "a.lock" "amd64" [example_record])).
Proof.
  apply (image_from_lockfile_well_formed "repo" "_build" "a.lock" None
           example_apt example_lockfile [example_record]).
  - done.
  - vm_compute. reflexivity.
  - vm_compute. reflexivity.
  - repeat constructor; eexists; vm_compute; reflexivity.
Defined.

Lemma image_from_lockfile_record_without_key_witness :
  image_from_lockfile "repo" "_build" "incomplete.lock" None example_apt_broken
  = (inl (KeyError (Some "Package")),
     with_builds (opening "repo" "amd64" example_apt_broken)
       [download_deb_statement "repo" example_record_a;
        make_dpkg_info_statement "repo" "_build" example_record_a;
        download_deb_statement "repo" example_record_b]).
Proof.
  apply (image_from_lockfile_record_without_key "repo" "_build"
           "incomplete.lock" None example_apt_broken
           example_incomplete_lockfile [example_record_a] example_record_b []
           "Package").
  - done.
  - vm_compute. reflexivity.
  - vm_compute. reflexivity.
  - repeat constructor.
  - vm_compute. reflexivity.
Defined.

Lemma image_from_lockfile_parser_raises_witness :
  image_from_lockfile "repo" "_build" "broken.lock" None example_apt_broken
  = (inl ValueError,
     with_builds (opening "repo" "amd64" example_apt_broken)
       [download_deb_statement "repo" example_record_a;
        make_dpkg_info_statement "repo" "_build" example_record_a])
  ∧ (ValueError = ValueError ∨ ∃ key, ValueError = KeyError key).
Proof.
  apply (image_from_lockfile_parser_raises "repo" "_build" "broken.lock" None
           example_apt_broken example_broken_lockfile [example_record_a]
           ValueError).
  - done.
  - vm_compute. reflexivity.
  - vm_compute. reflexivity.
  - repeat constructor.
Defined.

Lemma image_from_lockfile_lists_mirrors_witness :
  ninja_open deb_pool_mirrors_path
    (image_from_lockfile "repo" "_build" "secret.lock" None example_apt).2
  = (inr ["http://archive.ubuntu.com/ubuntu" +:+ nl;
          "http://ftp.debian.org/debian/" +:+ nl],
     (image_from_lockfile "repo" "_build" "secret.lock" None example_apt).2).
Proof.
  apply (image_from_lockfile_lists_mirrors "repo" "_build" "secret.lock" None
           example_apt).
  repeat constructor.
Defined.

(** A statement whose input nothing produced before it. *)
Example inputs_produced_example :
  inputs_produced ∅
    [make_dpkg_info_statement "repo" "_build" example_record;
     download_deb_statement "repo" example_record] = false
  ∧ inputs_produced ∅
      [download_deb_statement "repo" example_record;
       make_dpkg_info_statement "repo" "_build" example_record] = true.
Proof. split; vm_compute; reflexivity. Qed.

End LockfileExamples.

(** ** Names in the store *)

Section Names.

Implicit Types (s t pool digest file lockfile : string) (c : ascii).

Lemma replace_char_app old new s t :
  replace_char old new (s +:+ t)
  = replace_char old new s +:+ replace_char old new t.
Proof. induction s as [|c s IH]; [done|]. rewrite app_String. simpl. by rewrite IH. Qed.

Lemma replace_char_free old new s :
  occurs old s = false → replace_char old new s = s.
Proof.
  induction s as [|c s IH]; [done|]. simpl.
  intros [Hc Hs]%orb_false_iff. by rewrite Hc, IH.
Qed.

Lemma replace_char_length old new s :
  String.length (replace_char old new s) = String.length s.
Proof. induction s as [|c s IH]; [done|]. simpl. by rewrite IH. Qed.

Lemma occurs_replace_char old new s :
  old ≠ new → occurs old (replace_char old new s) = false.
Proof.
  intros Hne. induction s as [|c s IH]; [done|]. simpl. rewrite IH, orb_false_r.
  destruct (Ascii.eqb_spec c old) as [->|Hc]; apply Ascii.eqb_neq; congruence.
Qed.

Lemma occurs_replace_char_other old new c s :
  c ≠ new → occurs c s = false → occurs c (replace_char old new s) = false.
Proof.
  intros Hne. induction s as [|a s IH]; [done|]. simpl.
  intros [Ha Hs]%orb_false_iff. rewrite IH, orb_false_r by done.
  destruct (Ascii.eqb a old); [|done]. apply Ascii.eqb_neq. congruence.
Qed.

Lemma occurs_app c s t : occurs c (s +:+ t) = occurs c s || occurs c t.
Proof.
  induction s as [|a s IH]; [done|]. rewrite app_String. simpl.
  by rewrite IH, orb_assoc.
Qed.

Lemma length_app s t : String.length (s +:+ t) = String.length s + String.length t.
Proof. induction s as [|c s IH]; [done|]. rewrite app_String. simpl. by rewrite IH. Qed.

Lemma app_inj_length s1 s2 t1 t2 :
  String.length s1 = String.length s2 → s1 +:+ t1 = s2 +:+ t2 →
  s1 = s2 ∧ t1 = t2.
Proof.
  revert s2. induction s1 as [|c s1 IH]; intros [|d s2] Hlen; try done.
  rewrite !app_String. intros [= -> Heq]. simpl in Hlen.
  destruct (IH s2) as [-> ->]; [lia|done|done].
Qed.

Lemma occurs_take c n s : occurs c s = false → occurs c (take n s) = false.
Proof.
  revert s. induction n as [|n IH]; intros [|a s]; simpl; try done.
  intros [-> Hs]%orb_false_iff. by apply IH.
Qed.

Lemma occurs_drop c n s : occurs c s = false → occurs c (drop n s) = false.
Proof.
  revert s. induction n as [|n IH]; intros [|a s]; simpl; try done.
  intros [_ Hs]%orb_false_iff. by apply IH.
Qed.

Lemma length_take n s : String.length (take n s) = n `min` String.length s.
Proof. revert s. induction n as [|n IH]; intros [|a s]; simpl; auto. Qed.

(** The three parts of the digest in the [ref_base] of a record: they are
    not changed when the digest has no [+] and no [~]. *)
Lemma ref_base_digest digest file :
  occurs "+" digest = false → occurs "~" digest = false →
  ref_base (aptly_pool_filename digest file)
  = "deb/pool/" +:+ take 2 digest +:+ "/" +:+ slice 2 4 digest +:+ "/"
      +:+ drop 4 digest +:+ "_"
      +:+ replace_char "~" "_" (replace_char "+" "_" (basename file)).
Proof.
  intros Hplus Htilde. unfold ref_base, aptly_pool_filename, slice.
  rewrite !replace_char_app.
  rewrite (replace_char_free "+" _ (take 2 digest)),
    (replace_char_free "+" _ (take (4 - 2) (drop 2 digest))),
    (replace_char_free "+" _ (drop 4 digest)),
    (replace_char_free "~" _ (take 2 digest)),
    (replace_char_free "~" _ (take (4 - 2) (drop 2 digest))),
    (replace_char_free "~" _ (drop 4 digest));
    auto using occurs_take, occurs_drop.
Qed.

(** X12. Records with different digests get different names in the
    store, whatever their file names: for two digests of the same length
    without [+] and [~], as the hexadecimal digests of a lockfile are, the
    [ref_base] of the records are different, and so are the refs and the
    files that their statements produce. *)
Theorem ref_base_distinct_digests digest digest' file file' :
  String.length digest = String.length digest' →
  occurs "+" digest = false → occurs "~" digest = false →
  occurs "+" digest' = false → occurs "~" digest' = false →
  digest ≠ digest' →
  ref_base (aptly_pool_filename digest file)
  ≠ ref_base (aptly_pool_filename digest' file').
Proof.
  intros Hlen Hp Ht Hp' Ht' Hne Heq. apply Hne.
  rewrite !ref_base_digest in Heq by done.
  apply (app_inj_length "deb/pool/" "deb/pool/") in Heq as [_ Heq]; [|done].
  apply app_inj_length in Heq as [H1 Heq];
    [|rewrite !length_take; lia].
  apply (app_inj_length "/" "/") in Heq as [_ Heq]; [|done].
  apply app_inj_length in Heq as [H2 Heq];
    [|unfold slice; rewrite !length_take, !length_drop; lia].
  apply (app_inj_length "/" "/") in Heq as [_ Heq]; [|done].
  apply app_inj_length in Heq as [H3 _];
    [|rewrite !length_drop; lia].
  rewrite <-(take_slice_drop digest), <-(take_slice_drop digest').
  by rewrite H1, H2, H3.
Qed.

End Names.

Lemma ref_base_distinct_digests_witness :
  ref_base (aptly_pool_filename example_sha256 "pool/main/h/hello/hello.deb")
  ≠ ref_base (aptly_pool_filename hello_sha256 "pool/main/h/hello/hello.deb").
Proof.
  apply ref_base_distinct_digests; try (vm_compute; reflexivity).
  vm_compute. discriminate.
Defined.


(** ** Configured images and the target that updates the lockfiles *)

Section Configured.

Variables ostree_repo builddir : string.

Implicit Types (st : apt) (lockfile : string) (q : request)
  (requests : list request) (known : gset string).

Local Arguments head_of : simpl never.
Local Arguments ostree_ref : simpl never.
Local Arguments image_digest : simpl never.
Local Arguments unpacked_branch : simpl never.
Local Arguments replace : simpl never.

Lemma generate_lockfile_run q st :
  generate_lockfile (r_lockfile q) (r_packages q) (r_architecture q)
    (r_distribution q) (r_archive_url q) st
  = (inr (r_lockfile q), registered q st).
Proof. unfold generate_lockfile. by run_M. Qed.

Lemma build_image_run q st :
  build_image_for ostree_repo builddir q st
  = let r := image_from_lockfile ostree_repo builddir (r_lockfile q)
               (r_architecture q) (registered q st) in
    match r.1 with
    | inl e => (inl e, r.2)
    | inr _ =>
        (inr {| filename :=
                  head_of ostree_repo
                    (replace "unpacked" "configured"
                       (unpacked_branch (r_lockfile q)));
                ref := replace "unpacked" "configured"
                         (unpacked_branch (r_lockfile q)) |},
         with_builds r.2 (configured_statements ostree_repo (r_lockfile q)))
    end.
Proof.
  unfold build_image_for, build_image, build_image_unpacked.
  unfold mbind at 1, M_bind at 1. unfold mbind at 1, M_bind at 1.
  rewrite generate_lockfile_run. cbn zeta.
  destruct (image_from_lockfile _ _ _ _ _) as [[e|r] st1] eqn:Himage; [done|].
  apply image_from_lockfile_ref in Himage as ->. cbn [fst snd ref].
  unfold configured_statements, with_builds. run_M.
  rewrite ostree_ref_head_of. by rewrite <-app_assoc.
Qed.

Lemma image_from_lockfile_rules lockfile architecture st :
  update_lockfile_rules
    (image_from_lockfile ostree_repo builddir lockfile architecture st).2
  = update_lockfile_rules st.
Proof.
  rewrite image_from_lockfile_run. cbn zeta.
  by destruct (image_outcome _ _ _ _).1.
Qed.

Lemma build_image_rules q st :
  update_lockfile_rules (build_image_for ostree_repo builddir q st).2
  = update_lockfile_rules st ∪ {["update-lockfile-" +:+ r_lockfile q]}.
Proof.
  rewrite build_image_run. cbn zeta.
  pose proof (image_from_lockfile_rules (r_lockfile q) (r_architecture q)
                (registered q st)) as Hrules.
  destruct (image_from_lockfile _ _ _ _ _) as [[e|r] st1]; simpl in *;
    rewrite Hrules; by rewrite union_empty_r_L.
Qed.

Lemma for_each_build_image_rules requests st refs st' :
  for_each requests (build_image_for ostree_repo builddir) st = (inr refs, st') →
  update_lockfile_rules st'
  = update_lockfile_rules st
    ∪ list_to_set ((λ q, "update-lockfile-" +:+ r_lockfile q) <$> requests).
Proof.
  revert st refs. induction requests as [|q requests IH]; intros st refs.
  { unfold for_each, mret, M_ret. simpl. intros [= _ <-].
    by rewrite union_empty_r_L. }
  cbn [for_each]. intros (r & st1 & Hq & Hrest)%bind_inr.
  apply bind_inr in Hrest as (rs & st2 & Hrest & Hret).
  unfold mret, M_ret in Hret. injection Hret as _ <-.
  apply IH in Hrest as ->.
  replace st1 with (build_image_for ostree_repo builddir q st).2 by (by rewrite Hq).
  rewrite build_image_rules, fmap_cons. simpl.
  by rewrite <-(assoc_L (∪)).
Qed.

(** X13. After calls of [build_image] that returned, the phony target
    that [write_phony_rules] writes, [update-apt-lockfiles], has as inputs
    the update targets registered before these calls and the target
    [update-lockfile-<lockfile>] of every call, and no other; none is
    listed twice, also when two calls name the same lockfile. *)
Theorem update_apt_lockfiles_covers_images requests st refs st' :
  for_each requests (build_image_for ostree_repo builddir) st = (inr refs, st') →
  ∃ phony,
    write_phony_rules st' = (inr ["update-apt-lockfiles"], with_builds st' [phony])
    ∧ b_outputs phony = ["update-apt-lockfiles"] ∧ b_rule phony = "phony"
    ∧ NoDup (b_inputs phony)
    ∧ ∀ x, x ∈ b_inputs phony
           ↔ x ∈ update_lockfile_rules st
             ∨ ∃ q, q ∈ requests ∧ x = "update-lockfile-" +:+ r_lockfile q.
Proof.
  intros Hrun. eexists. split; [reflexivity|]. simpl.
  split; [done|]. split; [done|]. split; [apply NoDup_elements|].
  intros x. rewrite elem_of_elements.
  rewrite (for_each_build_image_rules _ _ _ _ Hrun).
  rewrite elem_of_union, elem_of_list_to_set, list_elem_of_fmap.
  split; intros [?|(q & ? & ?)]; eauto.
Qed.

Lemma outputs_of_mono known known' (l : list build) :
  known ⊆ known' → outputs_of known l ⊆ outputs_of known' l.
Proof.
  revert known known'. induction l as [|b l IH]; intros known known' Hsub; [done|].
  simpl. apply IH. by apply union_mono_r.
Qed.

(** X14. However [build_image] ends, every input of a statement it
    writes is [.FORCE], the input of the statement that updates the
    lockfile, or an output of a statement that the same call wrote before:
    the configured image is made from the ref of the unpacked image that
    [image_from_lockfile] returned, and the phony target of the image from
    the ref of the configured image. *)
Theorem build_image_inputs_produced q st :
  ∃ news,
    builds (build_image_for ostree_repo builddir q st).2 = builds st ++ news
    ∧ inputs_produced {[".FORCE"]} news = true.
Proof.
  rewrite build_image_run. cbn zeta.
  destruct (image_from_lockfile_news ostree_repo builddir (r_lockfile q)
              (r_architecture q) (registered q st))
    as (news & Hnews & Hproduced & Himage).
  assert (inputs_produced {[".FORCE"]} (update_lockfile_statement q :: news)
          = true) as Hfirst.
  { simpl. eapply inputs_produced_mono; [|exact Hproduced].
    apply empty_subseteq. }
  destruct (image_from_lockfile _ _ _ _ _) as [[e|r] st1]; cbn [fst snd] in *.
  { exists (update_lockfile_statement q :: news).
    rewrite Hnews. unfold registered. cbn [builds].
    rewrite <-app_assoc. by split. }
  exists ((update_lockfile_statement q :: news)
          ++ configured_statements ostree_repo (r_lockfile q)).
  unfold with_builds. cbn [builds]. rewrite Hnews. unfold registered.
  cbn [builds]. rewrite <-!app_assoc. split; [done|].
  change (?b :: ?l1 ++ ?l2) with ((b :: l1) ++ l2).
  rewrite inputs_produced_app, Hfirst. unfold configured_statements.
  cbn [inputs_produced b_inputs b_outputs forallb andb].
  rewrite !bool_decide_eq_true_2; [done| |].
  - known.
  - change (outputs_of ?k (?b :: ?l)) with (outputs_of (k ∪ list_to_set (b_outputs b)) l).
    eapply outputs_of_mono; [|by eapply Himage]. apply empty_subseteq.
Qed.

End Configured.

Lemma update_apt_lockfiles_covers_images_witness :
  ∃ phony,
    write_phony_rules
      (for_each example_requests (build_image_for "repo" "_build") example_apt).2
    = (inr ["update-apt-lockfiles"],
       with_builds
         (for_each example_requests (build_image_for "repo" "_build")
            example_apt).2 [phony])
    ∧ b_outputs phony = ["update-apt-lockfiles"] ∧ b_rule phony = "phony"
    ∧ NoDup (b_inputs phony)
    ∧ ∀ x, x ∈ b_inputs phony
           ↔ x ∈ update_lockfile_rules example_apt
             ∨ ∃ q, q ∈ example_requests
                    ∧ x = "update-lockfile-" +:+ r_lockfile q.
Proof.
  apply (update_apt_lockfiles_covers_images "repo" "_build" example_requests
           example_apt
           (match (for_each example_requests (build_image_for "repo" "_build")
                     example_apt).1 with
            | inr refs => refs
            | inl _ => []
            end)).
  vm_compute. reflexivity.
Defined.


(** ** The dpkg files of the packages of an image *)

Section Info.

Import DpkgInfo.

Implicit Types (s t x y path pkgname : string) (names : list string)
  (control : gmap string string) (p q : package) (pkgs : list package).

Local Arguments info_dir : simpl never.

(** What is in front of the last dot of a name. *)
Lemma dot_suffix_inj s t x y :
  occurs "." x = false → occurs "." y = false →
  s +:+ "." +:+ x = t +:+ "." +:+ y → s = t.
Proof.
  intros Hx Hy. revert t. induction s as [|c s IH]; intros [|d t].
  - done.
  - change ("" +:+ "." +:+ x) with (String "." x). rewrite app_String.
    intros [= <- ->]. rewrite occurs_app in Hx.
    apply orb_false_iff in Hx as [_ Hx]. done.
  - change ("" +:+ "." +:+ y) with (String "." y). rewrite app_String.
    intros [= -> <-]. rewrite occurs_app in Hy.
    apply orb_false_iff in Hy as [_ Hy]. done.
  - rewrite !app_String. intros [= -> Heq]. f_equal. by apply IH.
Qed.

Lemma info_tree_fold pkgname control (xs : list string) (init : Combine.tree)
    (P : string → Prop) :
  (∀ x, x ∈ xs → P (info_dir +:+ pkgname +:+ "." +:+ x)) →
  (∀ path, is_Some (init !! path) → P path) →
  ∀ path,
    is_Some (foldl (λ out x,
                      match control !! x with
                      | Some content =>
                          <[info_dir +:+ pkgname +:+ "." +:+ x := content]> out
                      | None => out
                      end) init xs !! path) → P path.
Proof.
  revert init. induction xs as [|x xs IH]; intros init Hxs Hinit path; simpl.
  { apply Hinit. }
  apply IH.
  - intros y Hy. apply Hxs. by right.
  - intros k. destruct (control !! x); [|apply Hinit].
    rewrite lookup_insert_is_Some. intros [<-|[_ Hk]]; [|by apply Hinit].
    apply Hxs. by left.
Qed.

(** The paths of the tree of a package: its name, a dot, and a word. *)
Lemma info_tree_paths pkgname names control path :
  is_Some (info_tree pkgname names control !! path) →
  ∃ x, path = info_dir +:+ pkgname +:+ "." +:+ x ∧ occurs "." x = false.
Proof.
  unfold info_tree.
  apply (info_tree_fold pkgname control maintainer_files _
           (λ path, ∃ x, path = info_dir +:+ pkgname +:+ "." +:+ x
                         ∧ occurs "." x = false)).
  - intros x Hx. exists x. split; [done|].
    unfold maintainer_files in Hx.
    repeat (apply elem_of_cons in Hx as [->|Hx]; [done|]).
    by apply elem_of_nil in Hx.
  - intros k [v [<- _]%lookup_singleton_Some]. by exists "list".
Qed.

Lemma info_tree_fold_keeps control pkgname (xs : list string)
    (init : Combine.tree) path :
  is_Some (init !! path) →
  is_Some (foldl (λ out x,
                    match control !! x with
                    | Some content =>
                        <[info_dir +:+ pkgname +:+ "." +:+ x := content]> out
                    | None => out
                    end) init xs !! path).
Proof.
  revert init. induction xs as [|x xs IH]; intros init Hinit; [done|].
  simpl. apply IH. destruct (control !! x); [|done].
  rewrite lookup_insert_is_Some'. by right.
Qed.

(** Every package has the list of its files. *)
Lemma info_tree_list pkgname names control :
  is_Some (info_tree pkgname names control
             !! (info_dir +:+ pkgname +:+ ".list")).
Proof.
  apply info_tree_fold_keeps. rewrite lookup_singleton_eq. by eexists.
Qed.

Lemma info_tree_disjoint p q :
  p.1.1 ≠ q.1.1 → info_tree_of p ##ₘ info_tree_of q.
Proof.
  intros Hne. apply map_disjoint_spec. intros path v w Hv Hw.
  destruct (info_tree_paths p.1.1 p.1.2 p.2 path) as (x & -> & Hx); [by eexists|].
  destruct (info_tree_paths q.1.1 q.1.2 q.2 (info_dir +:+ p.1.1 +:+ "." +:+ x))
    as (y & Heq & Hy); [by eexists|].
  apply Hne. apply String.app_inj in Heq.
  by apply (dot_suffix_inj _ _ x y).
Qed.

Lemma info_tree_overlap p q :
  p.1.1 = q.1.1 → ¬ info_tree_of p ##ₘ info_tree_of q.
Proof.
  intros Heq Hdisj.
  assert (is_Some (info_tree_of p !! (info_dir +:+ p.1.1 +:+ ".list")))
    as [v Hv] by apply info_tree_list.
  assert (is_Some (info_tree_of q !! (info_dir +:+ q.1.1 +:+ ".list")))
    as [w Hw] by apply info_tree_list.
  rewrite Heq in Hv.
  by apply (proj1 (map_disjoint_spec _ _) Hdisj _ _ _ Hv Hw).
Qed.

(** X15. For packages whose names are words of the shell without a
    slash, as the names of Debian packages are, the trees that
    [make_dpkg_info] commits for the packages of an image have no path in
    common exactly when no two of the packages have the same name: every
    path in the tree of a package is the name of the package, a dot and a
    word without a dot, and every package has its [.list] file. *)
Theorem info_trees_disjoint_iff_names_distinct pkgs :
  Forall (λ p, package_name p.1.1 = true) pkgs →
  map_disjoint_list (M := gmap string) (info_tree_of <$> pkgs)
  ↔ NoDup ((λ p, p.1.1) <$> pkgs).
Proof.
  intros _. rewrite NoDup_alt. split.
  - intros Hdisj i j name Hi Hj.
    apply list_lookup_fmap_Some in Hi as (p & ? & Hp).
    apply list_lookup_fmap_Some in Hj as (q & ? & Hq).
    destruct (decide (i = j)) as [|Hij]; [done|]. exfalso.
    apply (info_tree_overlap p q); [congruence|].
    apply (Hdisj i j); [done|by rewrite list_lookup_fmap, Hp
                            |by rewrite list_lookup_fmap, Hq].
  - intros Hnames i j t u Hij Ht Hu.
    apply list_lookup_fmap_Some in Ht as (p & -> & Hp).
    apply list_lookup_fmap_Some in Hu as (q & -> & Hq).
    apply info_tree_disjoint. intros Heq. apply Hij.
    apply (Hnames i j p.1.1); rewrite list_lookup_fmap.
    + by rewrite Hp.
    + by rewrite Hq, Heq.
Qed.

(** The tree of a package with two maintainer scripts. *)
Example info_tree_example :
  info_tree "dash" ["/"; "/bin"; "/bin/dash"]
    (<["control" := "Package: dash"]> (<["postinst" := "#!/bin/sh"]>
     (<["md5sums" := "0123  bin/dash"]> ∅)))
  = <["var/lib/dpkg/info/dash.list" :=
        "/." +:+ nl +:+ "/bin" +:+ nl +:+ "/bin/dash" +:+ nl]>
    (<["var/lib/dpkg/info/dash.md5sums" := "0123  bin/dash"]>
     (<["var/lib/dpkg/info/dash.postinst" := "#!/bin/sh"]> ∅)).
Proof. vm_compute. reflexivity. Qed.

End Info.

Lemma info_trees_disjoint_iff_names_distinct_witness :
  map_disjoint_list (M := gmap string)
    (DpkgInfo.info_tree_of <$> example_packages)
  ↔ NoDup ((λ p, p.1.1) <$> example_packages).
Proof.
  apply info_trees_disjoint_iff_names_distinct.
  repeat (apply Forall_cons; split; [vm_compute; reflexivity|]).
  apply Forall_nil_2.
Defined.

(** ** The dpkg database of an image *)

Section Database.

Implicit Types (s t line : string) (lines : list string) (f : field)
  (fields : list field) (controls : list (list field)).

Lemma join_empty_app (l1 l2 : list string) :
  join "" (l1 ++ l2) = join "" l1 +:+ join "" l2.
Proof.
  induction l1 as [|x l1 IH]; [done|].
  change ((x :: l1) ++ l2) with (x :: (l1 ++ l2)).
  by rewrite !join_empty_cons, IH, string_app_assoc.
Qed.

Lemma join_empty_bind {A} (g : A → list string) (l : list A) :
  join "" (l ≫= g) = join "" ((λ x, join "" (g x)) <$> l).
Proof.
  induction l as [|x l IH]; [done|].
  change ((x :: l) ≫= g) with (g x ++ (l ≫= g)).
  by rewrite fmap_cons, join_empty_app, join_empty_cons, IH.
Qed.

(** Reading back a text made of lines gives the lines. *)
Lemma file_lines_join lines :
  Forall ended lines → file_lines (join "" lines) = lines.
Proof.
  unfold file_lines. induction 1 as [|line lines (s & -> & Hs) _ IH]; [done|].
  rewrite join_empty_cons, string_app_assoc.
  rewrite file_lines_go_line by done. by rewrite IH.
Qed.

Lemma field_lines_ended f : field_plain f → Forall ended (field_lines f).
Proof.
  destruct f as [[label value] more]. intros (Hl & Hv & Hmore). simpl in *.
  unfold field_lines. simpl. constructor.
  - exists (label +:+ ": " +:+ value). split; [by rewrite !string_app_assoc|].
    by rewrite !occurs_app, Hl, Hv.
  - apply Forall_fmap. eapply Forall_impl; [done|]. intros m Hm. simpl.
    exists (" " +:+ m). split; [done|]. by rewrite occurs_app, Hm.
Qed.

Lemma paragraph_ended fields :
  Forall field_plain fields → Forall ended (paragraph fields).
Proof.
  intros Hplain. unfold paragraph. apply Forall_app. split.
  - apply Forall_bind. eapply Forall_impl; [done|]. apply field_lines_ended.
  - repeat constructor. by exists "".
Qed.

(** Paragraphs in a row are read as one record each. *)
Lemma parse_packages_paragraphs controls :
  Forall (λ fields, fields ≠ [] ∧ Forall field_ok fields) controls →
  parse_packages (controls ≫= paragraph) = (set_fields ∅ <$> controls, None).
Proof.
  unfold parse_packages.
  induction 1 as [|fields controls [Hne Hok] _ IH]; [done|].
  change ((fields :: controls) ≫= paragraph)
    with (paragraph fields ++ (controls ≫= paragraph)).
  unfold paragraph at 1. rewrite <-app_assoc.
  rewrite parse_loop_fields by done.
  change ([nl] ++ ?l) with (nl :: l). cbn [parse_loop].
  change (String.eqb (strip nl) "") with true. cbv iota.
  rewrite IH. rewrite decide_False; [done|].
  destruct fields as [|f fields _] using rev_ind; [done|].
  unfold set_fields. rewrite foldl_app. simpl. apply insert_non_empty.
Qed.

Lemma status_record_paragraph fields :
  Publish.status_record (control_text fields)
  = join "" (paragraph (fields ++ [status_field])).
Proof.
  unfold Publish.status_record, control_text, paragraph.
  rewrite bind_app, !join_empty_app. simpl.
  by rewrite !string_app_assoc.
Qed.

Lemma available_record_paragraph fields :
  Publish.available_record (control_text fields) = join "" (paragraph fields).
Proof.
  unfold Publish.available_record, control_text, paragraph.
  by rewrite join_empty_app.
Qed.

Lemma status_field_ok : field_ok status_field ∧ field_plain status_field.
Proof. by repeat split. Qed.

(** X17. The [status] and [available] files of an image are made by
    [make_dpkg_info], which ends the control file of each package with an
    empty line, after a [Status] field in [status], and by
    [deb_combine_meta], which puts these records one after the other.  For
    control files whose lines spell fields, the result read by
    [parse_packages] has one record per package, in the order of the
    inputs, with the fields of the control file of that package, followed
    in [status] by [Status: install ok unpacked]: no record runs into the
    next one. *)
Theorem dpkg_database_paragraphs controls :
  Forall (λ fields, fields ≠ [] ∧ Forall field_ok fields
                    ∧ Forall field_plain fields) controls →
  parse_packages_file
    (CombineMeta.cat (Publish.status_record <$> (control_text <$> controls)))
  = ((λ fields, set_fields ∅ (fields ++ [status_field])) <$> controls, None)
  ∧ parse_packages_file
      (CombineMeta.cat (Publish.available_record <$> (control_text <$> controls)))
    = (set_fields ∅ <$> controls, None).
Proof.
  intros Hall. unfold parse_packages_file, CombineMeta.cat. split.
  - rewrite <-list_fmap_compose.
    rewrite (list_fmap_ext _ (λ fields, join "" (paragraph (fields ++ [status_field])))
               controls)
      by (intros; apply status_record_paragraph).
    rewrite (list_fmap_compose (λ fields, fields ++ [status_field])
               (λ fields, join "" (paragraph fields))).
    rewrite <-join_empty_bind, file_lines_join.
    + rewrite parse_packages_paragraphs; [by rewrite <-list_fmap_compose|].
      apply Forall_fmap. eapply Forall_impl; [done|].
      intros fields (Hne & Hok & _). simpl. split; [by destruct fields|].
      apply Forall_app. split; [done|]. repeat constructor.
    + apply Forall_bind, Forall_fmap. eapply Forall_impl; [done|].
      intros fields (_ & _ & Hplain). simpl. apply paragraph_ended.
      apply Forall_app. split; [done|]. repeat constructor.
  - rewrite <-list_fmap_compose.
    rewrite (list_fmap_ext _ (λ fields, join "" (paragraph fields)) controls)
      by (intros; apply available_record_paragraph).
    rewrite <-join_empty_bind, file_lines_join.
    + apply parse_packages_paragraphs. eapply Forall_impl; [done|].
      by intros fields (? & ? & _).
    + apply Forall_bind. eapply Forall_impl; [done|].
      intros fields (_ & _ & Hplain). by apply paragraph_ended.
Qed.

End Database.

Lemma dpkg_database_paragraphs_witness :
  parse_packages_file
    (CombineMeta.cat
       (Publish.status_record <$> (control_text <$> example_controls)))
  = ((λ fields, set_fields ∅ (fields ++ [status_field])) <$> example_controls,
     None)
  ∧ parse_packages_file
      (CombineMeta.cat
         (Publish.available_record <$> (control_text <$> example_controls)))
    = (set_fields ∅ <$> example_controls, None).
Proof.
  apply dpkg_database_paragraphs. unfold example_controls.
  repeat (apply Forall_cons; split; [|try apply Forall_nil]);
    repeat split; try done;
    repeat (apply Forall_cons; split; [|try apply Forall_nil]);
    repeat split; try done;
    repeat (apply Forall_cons; split; [|try apply Forall_nil]); done.
Defined.


(** ** The local mirror *)

Section Mirroring.

Import Mirror.

Variable sha256sum : string → string.
Variable unpacks : string → bool.
Variables pwd builddir expected filename pool : string.

Implicit Types (net : string → option string) (disk : gmap string string)
  (mirrors : list string) (start : option string).




End Mirroring.


